(** * Patient identifier resolution: [utils/patient-id-resolver.js]

    A shallow embedding of [resolvePatientIds] and [resolvePatientIdsCached].

    - JavaScript strings are [string]s, one [ascii] per UTF-16 code unit
      (code units 0..255, the Latin-1 range). [requestedId] and [userUid]
      are strings; [profile] may be absent, and so may each of its fields.
      [profile.patientId] and the fields of a chart are strings when
      present; [profile.role] and [profile.phone] are any value that a
      profile document can hold, since the source stringifies them.
    - The [Set] accumulated by the resolver is an insertion-ordered list
      without duplicates, as [Array.from] later observes it.
    - [admin.firestore().collection('patients')] is an interface [Firestore]:
      every lookup is a promise that resolves to a snapshot or rejects.
      [store] implements it over a list of charts, with the lookups that
      reject given by a predicate.
    - The body of the resolver runs in a state-and-exception monad whose
      state (the Set, the lookups issued, the console) survives a throw, as
      the mutations of a JavaScript object survive one.
    - The module-level [Map] of the cache is a [gmap]; the readings of
      [Date.now()] are inputs. *)

From stdpp Require Import gmap strings list fin_maps pretty.
From Stdlib Require Import ZArith Ascii String Sorted.

Set Warnings "-clear-no-such-hyp".

Open Scope string_scope.
Open Scope Z_scope.

(** ** Strings *)

Module JS.

(** WhiteSpace and LineTerminator code units below 256, as [trim] strips
    them: TAB, LF, VT, FF, CR, SP and NBSP. *)
Definition is_white_space (c : ascii) : bool :=
  let n := N_of_ascii c in
  ((9 <=? n) && (n <=? 13) || (n =? 32) || (n =? 160))%N.

Fixpoint trimStart (s : string) : string :=
  match s with
  | EmptyString => EmptyString
  | String c r => if is_white_space c then trimStart r else s
  end.

Fixpoint trimEnd (s : string) : string :=
  match s with
  | EmptyString => EmptyString
  | String c r =>
      match trimEnd r with
      | EmptyString => if is_white_space c then EmptyString else String c EmptyString
      | r' => String c r'
      end
  end.

(** [s.trim()] *)
Definition trim (s : string) : string := trimEnd (trimStart s).

(** Lower-casing of one code unit: A-Z, and the Latin-1 capitals other than
    the multiplication sign. *)
Definition lower_char (c : ascii) : ascii :=
  let n := N_of_ascii c in
  if ((65 <=? n) && (n <=? 90) || (192 <=? n) && (n <=? 222) && negb (n =? 215))%N
  then ascii_of_N (n + 32) else c.

(** [s.toLowerCase()] *)
Fixpoint toLowerCase (s : string) : string :=
  match s with
  | EmptyString => EmptyString
  | String c r => String (lower_char c) (toLowerCase r)
  end.

(** Truthiness of a string: every string but the empty one. *)
Definition truthy (s : string) : bool := negb (String.eqb s "").

(** The values a profile document can hold in a field. *)
#[warnings="-register-all"]
Inductive value :=
| VStr (s : string)
| VNum (z : Z)          (* an integer number, printed in decimal *)
| VBool (b : bool)
| VArr (l : list value)
| VObj.

Fixpoint join (sep : string) (l : list string) : string :=
  match l with
  | [] => ""
  | [x] => x
  | x :: r => x +:+ sep +:+ join sep r
  end.

(** [v.toString()] *)
Fixpoint toString (v : value) : string :=
  match v with
  | VStr s => s
  | VNum z => pretty z
  | VBool true => "true"
  | VBool false => "false"
  | VArr l => join "," (List.map toString l)
  | VObj => "[object Object]"
  end.

(** The property [isNotEmpty] of a string: strings have [length], [trim],
    ... but no property of this name, so the read is [undefined] ([None]). *)
Definition get_isNotEmpty (s : string) : option bool := None.

(** [v == true] for [v] a boolean or [undefined]. *)
Definition loose_eq_true (v : option bool) : bool :=
  match v with
  | Some true => true
  | _ => false
  end.

End JS.

(** ** The Set of ids *)

(** [patientIds.add(x)]: a Set keeps the first insertion of a value. *)
Definition set_add (x : string) (ids : list string) : list string :=
  if decide (x ∈ ids) then ids else ids ++ [x].

(** What the final [filter(id => id && id.trim() !== '')] keeps. *)
Definition nonblank (s : string) : Prop := s ≠ "" ∧ JS.trim s ≠ "".

#[global] Instance nonblank_dec s : Decision (nonblank s).
Proof. unfold nonblank. apply _. Defined.

(** ** The chart store *)

(** The data of a chart document: the fields the resolver reads. *)
Record ChartData := {
  f_id : option string;       (* field `id` *)
  f_userId : option string;   (* field `userId` *)
  f_phone : option string;    (* field `phone` *)
}.

(** A document of a query result: [doc.id] and [doc.data()]. *)
Record QueryDocumentSnapshot := {
  qd_id : string;
  qd_data : ChartData;
}.

(** The result of [.doc(id).get()]: [snap.id], and [snap.data()] which is
    [None] when [snap.exists] is false. *)
Record DocumentSnapshot := {
  ds_id : string;
  ds_data : option ChartData;
}.

Inductive field := F_phone | F_id | F_userId.

#[global] Instance field_eq_dec : EqDecision field.
Proof. solve_decision. Defined.

(** The lookups the resolver issues. *)
Inductive query :=
| Where (f : field) (v : string) (limit : nat)  (* .where(f, '==', v).limit(n).get() *)
| Doc (id : string).                             (* .doc(id).get() *)

#[global] Instance query_eq_dec : EqDecision query.
Proof. solve_decision. Defined.

(** [admin.firestore().collection('patients')]: each lookup resolves
    ([Some]) or rejects ([None]). *)
Record Firestore := {
  where_get : field → string → nat → option (list QueryDocumentSnapshot);
  doc_get : string → option DocumentSnapshot;
}.

(** ** The monad of the resolver's body *)

Record RState := {
  patientIds : list string;   (* the Set *)
  lookups : list query;       (* lookups issued so far, oldest first *)
  console : list string;      (* console.error lines, oldest first *)
}.

Inductive outcome (A : Type) :=
| Ok (a : A)
| Throw.
Arguments Ok {A} a.
Arguments Throw {A}.

Definition M (A : Type) : Type := RState → outcome A * RState.

Definition ret {A} (a : A) : M A := λ s, (Ok a, s).

Definition bind {A B} (m : M A) (k : A → M B) : M B :=
  λ s, match m s with
       | (Ok a, s') => k a s'
       | (Throw, s') => (Throw, s')
       end.

Notation "x <- m ;; k" := (bind m (λ x, k))
  (at level 100, m at next level, right associativity).
Notation "m ;; k" := (bind m (λ _, k))
  (at level 100, right associativity).

Definition skip : M unit := ret tt.

(** [patientIds.add(x)] *)
Definition add (x : string) : M unit :=
  λ s, (Ok tt, {| patientIds := set_add x (patientIds s);
                  lookups := lookups s; console := console s |}).

(** [docs.forEach(doc => patientIds.add(doc.id))] *)
Fixpoint forEach_add (docs : list QueryDocumentSnapshot) : M unit :=
  match docs with
  | [] => skip
  | d :: r => add (qd_id d) ;; forEach_add r
  end.

Definition issue (q : query) (s : RState) : RState :=
  {| patientIds := patientIds s; lookups := lookups s ++ [q]; console := console s |}.

Definition log_error (msg : string) (s : RState) : RState :=
  {| patientIds := patientIds s; lookups := lookups s; console := console s ++ [msg] |}.

(** [try { body } catch (error) { console.error(msg, ...) }] *)
Definition try_catch (body : M unit) (msg : string) : M unit :=
  λ s, match body s with
       | (Ok _, s') => (Ok tt, s')
       | (Throw, s') => (Ok tt, log_error msg s')
       end.

(** [const ids = patientIds] read for the final [Array.from] *)
Definition get_patientIds : M (list string) := λ s, (Ok (patientIds s), s).

(** ** The caller's profile *)

Record Profile := {
  role : option JS.value;
  patientId : option string;
  phone : option JS.value;
}.

(** [profile?.role?.toString?.().toLowerCase?.() === 'patient'] *)
Definition isPatient_of (profile : option Profile) : bool :=
  match profile ≫= role with
  | Some v => bool_decide (JS.toLowerCase (JS.toString v) = "patient")
  | None => false
  end.

(** ** [resolvePatientIds] *)

Section Resolver.

Variable admin : Firestore.

(** [await ... .where(f, '==', v).limit(n).get()] *)
Definition await_where (f : field) (v : string) (n : nat) : M (list QueryDocumentSnapshot) :=
  λ s, match where_get admin f v n with
       | Some docs => (Ok docs, issue (Where f v n) s)
       | None => (Throw, issue (Where f v n) s)
       end.

(** [await ... .doc(id).get()] *)
Definition await_doc (id : string) : M DocumentSnapshot :=
  λ s, match doc_get admin id with
       | Some d => (Ok d, issue (Doc id) s)
       | None => (Throw, issue (Doc id) s)
       end.

(** [if (!snapshot.empty) snapshot.docs.forEach(doc => patientIds.add(doc.id))] *)
Definition add_all (docs : list QueryDocumentSnapshot) : M unit :=
  if negb (bool_decide (docs = [])) then forEach_add docs else skip.

(** [if (!snapshot.empty) patientIds.add(snapshot.docs[0].id)] *)
Definition add_first (docs : list QueryDocumentSnapshot) : M unit :=
  match docs with
  | d :: _ => add (qd_id d)
  | [] => skip
  end.

(** [if (data?.userId) patientIds.add(data.userId)] on an existing chart *)
Definition add_userId (data : ChartData) : M unit :=
  match f_userId data with
  | Some u => if JS.truthy u then add u else skip
  | None => skip
  end.

(** Strategy 1: [profile.patientId], trimmed. *)
Definition strategy1 (profile : option Profile) : M unit :=
  match profile ≫= patientId with
  | Some p =>
      if JS.truthy p && negb (bool_decide (JS.trim p = "")) then add (JS.trim p) else skip
  | None => skip
  end.

(** Strategy 1b: charts with the caller's phone. *)
Definition strategy1b (isPatient : bool) (profile : option Profile) : M unit :=
  match profile ≫= phone with
  | Some p =>
      if isPatient && JS.loose_eq_true (JS.get_isNotEmpty (JS.trim (JS.toString p))) then
        try_catch
          (let phone := JS.trim (JS.toString p) in
           chartsByPhone <- await_where F_phone phone 5 ;;
           add_all chartsByPhone)
          "[PATIENT_ID_RESOLVER] Phone-based lookup error:"
      else skip
  | None => skip
  end.

(** Strategy 2: a patient reading their own data. *)
Definition strategy2 (requestedId : string) : M unit :=
  try_catch
    (chartsByIdField <- await_where F_id requestedId 5 ;;
     add_all chartsByIdField ;;
     chartsByUserId <- await_where F_userId requestedId 5 ;;
     add_all chartsByUserId ;;
     directPatientDoc <- await_doc requestedId ;;
     match ds_data directPatientDoc with
     | Some data =>
         add (ds_id directPatientDoc) ;;
         match f_userId data with
         | Some u =>
             if JS.truthy u && negb (bool_decide (u = requestedId)) then add u else skip
         | None => skip
         end
     | None => skip
     end)
    "[PATIENT_ID_RESOLVER] Firestore lookup error:".

(** Strategy 2c: a patient requesting another id than their UID. *)
Definition strategy2c (requestedId userUid : string) : M unit :=
  try_catch
    (chartDoc <- await_doc requestedId ;;
     match ds_data chartDoc with
     | Some data => add_userId data
     | None => skip
     end ;;
     if JS.truthy userUid then
       chartsByIdField <- await_where F_id userUid 5 ;;
       add_all chartsByIdField ;;
       chartsByUserId <- await_where F_userId userUid 5 ;;
       add_all chartsByUserId
     else skip)
    "[PATIENT_ID_RESOLVER] Patient chart-id lookup error:".

(** Strategy 3: staff. *)
Definition strategy3 (requestedId : string) : M unit :=
  try_catch
    (chartDoc <- await_doc requestedId ;;
     match ds_data chartDoc with
     | Some chartData => add_userId chartData
     | None =>
         chartsByIdField <- await_where F_id requestedId 1 ;;
         add_first chartsByIdField ;;
         chartsByUserId <- await_where F_userId requestedId 1 ;;
         add_first chartsByUserId
     end)
    "[PATIENT_ID_RESOLVER] Chart lookup error:".

(** The body of [resolvePatientIds]. *)
Definition resolve_body (requestedId userUid : string) (profile : option Profile)
  : M (list string) :=
  add requestedId ;;
  let isPatient := isPatient_of profile in
  let isSelfAccess := bool_decide (userUid = requestedId) in
  (if isPatient && JS.truthy userUid then add userUid else skip) ;;
  strategy1 profile ;;
  strategy1b isPatient profile ;;
  (if isPatient && isSelfAccess then strategy2 requestedId else skip) ;;
  (if isPatient && negb isSelfAccess && JS.truthy requestedId
   then strategy2c requestedId userUid else skip) ;;
  (if negb isPatient && JS.truthy requestedId then strategy3 requestedId else skip) ;;
  patientIds <- get_patientIds ;;
  ret (filter nonblank patientIds).

(** A call: the body run on a fresh Set. *)
Definition run_resolve (requestedId userUid : string) (profile : option Profile)
  : outcome (list string) * RState :=
  resolve_body requestedId userUid profile
    {| patientIds := []; lookups := []; console := [] |}.

(** [resolvePatientIds({ requestedId, userUid, profile })]: the array the
    promise resolves to, [None] if it rejected. *)
Definition resolvePatientIds (requestedId userUid : string) (profile : option Profile)
  : option (list string) :=
  match fst (run_resolve requestedId userUid profile) with
  | Ok ids => Some ids
  | Throw => None
  end.

(** The lookups a call issued, in order. *)
Definition lookups_of (requestedId userUid : string) (profile : option Profile)
  : list query :=
  lookups (snd (run_resolve requestedId userUid profile)).

End Resolver.

(** ** A chart store with faults *)

(** The collection, in the order the store returns documents. *)
Definition collection := list QueryDocumentSnapshot.

Definition field_of (f : field) (d : ChartData) : option string :=
  match f with
  | F_phone => f_phone d
  | F_id => f_id d
  | F_userId => f_userId d
  end.

Definition matches (f : field) (v : string) (d : QueryDocumentSnapshot) : Prop :=
  field_of f (qd_data d) = Some v.

#[global] Instance matches_dec f v d : Decision (matches f v d).
Proof. unfold matches. apply _. Defined.

(** [.where(f, '==', v).limit(n)] on the collection. *)
Definition run_where (st : collection) (f : field) (v : string) (n : nat)
  : list QueryDocumentSnapshot :=
  take n (filter (matches f v) st).

(** The data of the document named [id], if the collection has one. *)
Fixpoint find_doc (st : collection) (id : string) : option ChartData :=
  match st with
  | [] => None
  | d :: r => if decide (qd_id d = id) then Some (qd_data d) else find_doc r id
  end.

(** [.doc(id)] on the collection. *)
Definition run_doc (st : collection) (id : string) : DocumentSnapshot :=
  {| ds_id := id; ds_data := find_doc st id |}.

(** The store [st] behind a connection on which the lookups [fails] reject. *)
Definition store (st : collection) (fails : query → bool) : Firestore :=
  {| where_get f v n := if fails (Where f v n) then None else Some (run_where st f v n);
     doc_get id := if fails (Doc id) then None else Some (run_doc st id) |}.

Definition no_faults : query → bool := λ _, false.

(** ** [resolvePatientIdsCached] *)

Record CacheEntry := {
  ids : list string;
  timestamp : Z;
}.

(** [const CACHE_TTL = 5 * 60 * 1000] *)
Definition CACHE_TTL : Z := 5 * 60 * 1000.

(** The readings of [Date.now()] a call can make, in program order: in the
    freshness test, in the stored entry, and before the sweep. *)
Record Clock := {
  now_check : Z;
  now_store : Z;
  now_sweep : Z;
}.

(** [`${userUid}:${requestedId}`] *)
Definition cacheKey (userUid requestedId : string) : string :=
  userUid +:+ ":" +:+ requestedId.

(** [if (now - value.timestamp > CACHE_TTL) patientIdCache.delete(key)] *)
Definition sweep_step (now : Z) (kv : string * CacheEntry)
    (cache : gmap string CacheEntry) : gmap string CacheEntry :=
  if decide (now - timestamp kv.2 > CACHE_TTL) then delete kv.1 cache else cache.

(** [for (const [key, value] of patientIdCache.entries()) { ... }]: the
    loop visits the entries the Map held when it started. *)
Definition sweep (now : Z) (cache : gmap string CacheEntry) : gmap string CacheEntry :=
  foldl (λ acc kv, sweep_step now kv acc) cache (map_to_list cache).

(** [if (patientIdCache.size > 1000) { ... }] *)
Definition cleanup (now : Z) (cache : gmap string CacheEntry) : gmap string CacheEntry :=
  if decide (1000 < size cache)%nat then sweep now cache else cache.

(** What a call of the cached resolver leaves behind. *)
Record CachedRun := {
  returned : option (list string);        (* the array, [None] if rejected *)
  issued : list query;                    (* lookups issued by this call *)
  cache_after : gmap string CacheEntry;   (* the module-level Map afterwards *)
}.

Definition resolvePatientIdsCached (admin : Firestore) (clock : Clock)
    (patientIdCache : gmap string CacheEntry)
    (requestedId userUid : string) (profile : option Profile) : CachedRun :=
  let key := cacheKey userUid requestedId in
  let miss :=
    let run := run_resolve admin requestedId userUid profile in
    match run.1 with
    | Ok resolved =>
        let stored :=
          <[key := {| ids := resolved; timestamp := now_store clock |}]> patientIdCache in
        {| returned := Some resolved;
           issued := lookups run.2;
           cache_after := cleanup (now_sweep clock) stored |}
    | Throw =>
        {| returned := None; issued := lookups run.2; cache_after := patientIdCache |}
    end in
  match patientIdCache !! key with
  | Some cached =>
      if decide (now_check clock - timestamp cached < CACHE_TTL)
      then {| returned := Some (ids cached); issued := []; cache_after := patientIdCache |}
      else miss
  | None => miss
  end.

(** The cache as the specification words it: an entry is fresh while its
    age is below the TTL; a fresh entry answers the call; otherwise the
    resolver runs, its result is stored with the time of the store, and
    the expired entries are dropped once more than 1000 entries are held. *)
Module CacheSpec.

Definition fresh (now : Z) (e : CacheEntry) : Prop := now - timestamp e < CACHE_TTL.

Definition expired (now : Z) (e : CacheEntry) : Prop := now - timestamp e > CACHE_TTL.

#[global] Instance fresh_dec now e : Decision (fresh now e).
Proof. unfold fresh. apply _. Defined.

#[global] Instance expired_dec now e : Decision (expired now e).
Proof. unfold expired. apply _. Defined.

Definition evict (now : Z) (cache : gmap string CacheEntry) : gmap string CacheEntry :=
  if decide (size cache ≤ 1000)%nat then cache
  else filter (λ kv, ¬ expired now kv.2) cache.

Inductive step (admin : Firestore) (clock : Clock) (cache : gmap string CacheEntry)
    (requestedId userUid : string) (profile : option Profile) : CachedRun → Prop :=
| hit e :
    cache !! cacheKey userUid requestedId = Some e →
    fresh (now_check clock) e →
    step admin clock cache requestedId userUid profile
      {| returned := Some (ids e); issued := []; cache_after := cache |}
| miss resolved :
    (∀ e, cache !! cacheKey userUid requestedId = Some e → ¬ fresh (now_check clock) e) →
    resolvePatientIds admin requestedId userUid profile = Some resolved →
    step admin clock cache requestedId userUid profile
      {| returned := Some resolved;
         issued := lookups_of admin requestedId userUid profile;
         cache_after :=
           evict (now_sweep clock)
             (<[cacheKey userUid requestedId :=
                  {| ids := resolved; timestamp := now_store clock |}]> cache) |}.

End CacheSpec.

(** ** Vocabulary of the properties *)

(** Empty or whitespace-only. *)
Fixpoint all_white (s : string) : bool :=
  match s with
  | EmptyString => true
  | String c r => JS.is_white_space c && all_white r
  end.

(** A computation only grows the Set and the list of lookups. *)
Definition grows (s s' : RState) : Prop :=
  patientIds s ⊆ patientIds s' ∧ lookups s `prefix_of` lookups s'.

Definition monotone {A} (m : M A) : Prop := ∀ s o s', m s = (o, s') → grows s s'.

(** A computation that cannot throw. *)
Definition catches (m : M unit) : Prop := ∀ s, (m s).1 = Ok tt.

Definition init : RState := {| patientIds := []; lookups := []; console := [] |}.

(** The ids taken from the inputs alone, before any strategy runs: the
    requested id, the UID of a patient caller, the linked patient id. *)
Definition seeds (requestedId userUid : string) (profile : option Profile) : M unit :=
  add requestedId ;;
  (if isPatient_of profile && JS.truthy userUid then add userUid else skip) ;;
  strategy1 profile.

Definition seed_state (requestedId userUid : string) (profile : option Profile) : RState :=
  (seeds requestedId userUid profile init).2.

(** The one lookup strategy that the guards of a call select. *)
Definition active_strategy (admin : Firestore) (requestedId userUid : string)
    (profile : option Profile) : M unit :=
  if isPatient_of profile then
    if bool_decide (userUid = requestedId) then strategy2 admin requestedId
    else if JS.truthy requestedId then strategy2c admin requestedId userUid
    else skip
  else
    if JS.truthy requestedId then strategy3 admin requestedId
    else skip.

(** The state in which the body reaches its final filter. *)
Definition final_state (admin : Firestore) (requestedId userUid : string)
    (profile : option Profile) : RState :=
  (active_strategy admin requestedId userUid profile
     (seed_state requestedId userUid profile)).2.

(** [chart id i u ph]: a chart document with fields [id], [userId], [phone]. *)
Definition chart (id : string) (fid fuid fphone : option string) : QueryDocumentSnapshot :=
  {| qd_id := id; qd_data := {| f_id := fid; f_userId := fuid; f_phone := fphone |} |}.

(** A profile with a role and nothing else. *)
Definition with_role (r : string) : option Profile :=
  Some {| role := Some (JS.VStr r); patientId := None; phone := None |}.

(** A computation that issues only lookups from [P]. *)
Definition issues_only {A} (P : query → Prop) (m : M A) : Prop :=
  ∀ s o s', m s = (o, s') → ∃ qs, lookups s' = (lookups s ++ qs)%list ∧ Forall P qs.

(** The userId field of a fetched chart, when it holds a non-empty string. *)
Definition owner_of (snap : DocumentSnapshot) (y : string) : Prop :=
  ∃ data, ds_data snap = Some data ∧ f_userId data = Some y ∧ y ≠ "".

(** The ids the inputs alone provide: the requested id, the UID of a
    patient caller, the trimmed [patientId] of the profile. *)
Definition input_ids (requestedId userUid : string) (p : option Profile) : list string :=
  (requestedId :: (if isPatient_of p then [userUid] else []) ++
   match p ≫= patientId with Some pid => [JS.trim pid] | None => [] end)%list.

(** The document id of the first chart of the collection whose field [f]
    equals [v]. *)
Definition first_match (f : field) (v : string) (st : collection) : option string :=
  qd_id <$> head (filter (matches f v) st).

(** The document ids of a query result. *)
Definition doc_ids (docs : list QueryDocumentSnapshot) : list string := qd_id <$> docs.

(** The ids of [l] that survive the final filter are in [ids]. *)
Definition kept (l ids : list string) : Prop := ∀ x, x ∈ l → nonblank x → x ∈ ids.

(** A cache of [n] entries stored at time 0, under the keys "0", "1", ... *)
Definition stale_cache (n : nat) : gmap string CacheEntry :=
  list_to_map ((λ i : nat, (pretty i, {| ids := []; timestamp := 0 |})) <$> seq 0 n).

(** Lower-casing of the ASCII capitals only. *)
Definition ascii_lower (c : ascii) : ascii :=
  let n := N_of_ascii c in
  if ((65 <=? n) && (n <=? 90))%N then ascii_of_N (n + 32) else c.

Fixpoint fold_case (s : string) : string :=
  match s with
  | EmptyString => EmptyString
  | String c r => String (ascii_lower c) (fold_case r)
  end.

(** Equality of strings up to the case of the letters A-Z. *)
Definition eq_ignore_case (s t : string) : Prop := fold_case s = fold_case t.

Fixpoint ascii_only (s : string) : bool :=
  match s with
  | EmptyString => true
  | String c r => (N_of_ascii c <? 128)%N && ascii_only r
  end.

(** The profile [p] with its role replaced. *)
Definition set_role (r : option JS.value) (p : option Profile) : option Profile :=
  Some {| role := r; patientId := p ≫= patientId; phone := p ≫= phone |}.

(** What a call that selected strategy 2 leaves, by the first of its
    lookups that rejects: [ids] is the returned array, [qs] the lookups
    issued. *)
Definition self_outcome (admin : Firestore) (rid : string)
    (ids : list string) (qs : list query) : Prop :=
  match where_get admin F_id rid 5 with
  | None => qs = [Where F_id rid 5]
  | Some A =>
      kept (doc_ids A) ids ∧
      match where_get admin F_userId rid 5 with
      | None => qs = [Where F_id rid 5; Where F_userId rid 5]
      | Some B =>
          kept (doc_ids B) ids ∧
          qs = [Where F_id rid 5; Where F_userId rid 5; Doc rid] ∧
          ∀ snap data, doc_get admin rid = Some snap → ds_data snap = Some data →
            kept [ds_id snap] ids ∧
            ∀ u, f_userId data = Some u → kept [u] ids
      end
  end.

(** The same for strategy 2c. *)
Definition other_outcome (admin : Firestore) (rid uid : string)
    (ids : list string) (qs : list query) : Prop :=
  match doc_get admin rid with
  | None => qs = [Doc rid]
  | Some snap =>
      (∀ u, owner_of snap u → kept [u] ids) ∧
      if decide (uid = "") then qs = [Doc rid]
      else
        match where_get admin F_id uid 5 with
        | None => qs = [Doc rid; Where F_id uid 5]
        | Some A =>
            kept (doc_ids A) ids ∧
            qs = [Doc rid; Where F_id uid 5; Where F_userId uid 5] ∧
            ∀ B, where_get admin F_userId uid 5 = Some B → kept (doc_ids B) ids
        end
  end.

(** The same for strategy 3. *)
Definition staff_outcome (admin : Firestore) (rid : string)
    (ids : list string) (qs : list query) : Prop :=
  match doc_get admin rid with
  | None => qs = [Doc rid]
  | Some snap =>
      match ds_data snap with
      | Some data => qs = [Doc rid] ∧ ∀ u, f_userId data = Some u → kept [u] ids
      | None =>
          match where_get admin F_id rid 1 with
          | None => qs = [Doc rid; Where F_id rid 1]
          | Some A =>
              kept (take 1 (doc_ids A)) ids ∧
              qs = [Doc rid; Where F_id rid 1; Where F_userId rid 1] ∧
              ∀ B, where_get admin F_userId rid 1 = Some B → kept (take 1 (doc_ids B)) ids
          end
      end
  end.

(** A computation that keeps an invariant of the Set. *)
Definition preserves {A} (I : list string → Prop) (m : M A) : Prop :=
  ∀ s o s', I (patientIds s) → m s = (o, s') → I (patientIds s').

(** The lookup [q] rejects on the connection [admin]. *)
Definition rejects (admin : Firestore) (q : query) : Prop :=
  match q with
  | Where f v n => where_get admin f v n = None
  | Doc id => doc_get admin id = None
  end.

(** The lookups [qs] as a computation can issue them: all resolve, except
    that the last one rejects when the computation throws. *)
Definition disciplined {A} (admin : Firestore) (o : outcome A) (qs : list query) : Prop :=
  match o with
  | Ok _ => Forall (λ q, ¬ rejects admin q) qs
  | Throw => ∃ qs' q, qs = (qs' ++ [q])%list ∧ rejects admin q ∧
                      Forall (λ q, ¬ rejects admin q) qs'
  end.

(** A computation that logs nothing and issues its lookups in this way. *)
Definition tracked {A} (admin : Firestore) (m : M A) : Prop :=
  ∀ s o s', m s = (o, s') →
    console s' = console s ∧
    ∃ qs, lookups s' = (lookups s ++ qs)%list ∧ disciplined admin o qs.

(** The [console.error] lines of a call. *)
Definition console_of (admin : Firestore) (requestedId userUid : string)
    (profile : option Profile) : list string :=
  console (run_resolve admin requestedId userUid profile).2.

(** How the console and the lookups of a call relate: no line and no
    rejected lookup, or one line and the last lookup the only one that
    rejected. *)
Definition logged_outcome (admin : Firestore) (lines : list string) (qs : list query)
  : Prop :=
  (lines = [] ∧ Forall (λ q, ¬ rejects admin q) qs) ∨
  (∃ msg qs' q, lines = [msg] ∧ qs = (qs' ++ [q])%list ∧ rejects admin q ∧
                Forall (λ q, ¬ rejects admin q) qs').

(** ** The record routes: [routes/prescriptions.routes.js], [routes/lab.routes.js] *)

(** A document of the record store, by field name. *)
Abbreviation document := (gmap string JS.value).

(** One equality clause of a filter, [{ field: value }]. *)
Inductive clause := FieldEq (field : string) (value : string).

#[global] Instance clause_eq_dec : EqDecision clause.
Proof. solve_decision. Defined.

(** [patientIds.flatMap(id => [{ patientId: id }, { patientUid: id }])], the
    array under [$or]. *)
Definition patientClauses (patientIds : list string) : list clause :=
  flat_map (λ id, [FieldEq "patientId" id; FieldEq "patientUid" id]) patientIds.

(** The filters the routes send: [{ $or: [...] }], and
    [{ ...patientClause, labRequestId: labId }]. *)
Inductive query_filter :=
| Or (clauses : list clause)
| OrWith (clauses : list clause) (extra : clause).

(** The filter each route builds from its list of clauses:
    GET /:patientId/prescriptions and GET /:patientId/lab_requests send
    [{ $or }], GET /:patientId/lab_requests/:labId/results sends
    [{ ...patientClause, labRequestId: req.params.labId }]. *)
Definition prescriptions_filter : list clause → query_filter := Or.

Definition lab_requests_filter : list clause → query_filter := Or.

Definition lab_results_filter (labId : string) : list clause → query_filter :=
  λ cs, OrWith cs (FieldEq "labRequestId" labId).

(** The filter a route builds for a call, when the resolver returns. *)
Definition query_of (admin : Firestore) (mk : list clause → query_filter)
    (requestedPatientId userUid : string) (profile : option Profile) : option query_filter :=
  (λ ids, mk (patientClauses ids)) <$>
    resolvePatientIds admin requestedPatientId userUid profile.

(** Equality of a stored value with a string, as a filter tests it: the
    value is the string, or an array that holds it. *)
Definition value_eq (v : JS.value) (x : string) : Prop :=
  v = JS.VStr x ∨ ∃ l, v = JS.VArr l ∧ JS.VStr x ∈ l.

Definition satisfies (d : document) (c : clause) : Prop :=
  match c with
  | FieldEq f x => ∃ v, d !! f = Some v ∧ value_eq v x
  end.

(** The documents a filter selects. *)
Definition selects (q : query_filter) (d : document) : Prop :=
  match q with
  | Or cs => Exists (satisfies d) cs
  | OrWith cs c => Exists (satisfies d) cs ∧ satisfies d c
  end.

(** A record filed under the id [id], in its [patientId] or in its legacy
    [patientUid] field. *)
Definition filed_under (d : document) (id : string) : Prop :=
  ∃ v, (d !! "patientId" = Some v ∨ d !! "patientUid" = Some v) ∧ value_eq v id.

(** ** Roles and guards: [middleware/authz.js], [middleware/guards.js] *)

(** The user document of a caller: the profile the resolver reads, and the
    two flags that [isVerifiedStaff] reads. *)
Record UserDoc := {
  profile_of : Profile;
  isVerified : option JS.value;
  isActive : option JS.value;
}.

(** [v === 'literal'] *)
Definition strict_eq_string (v : option JS.value) (s : string) : bool :=
  match v with
  | Some (JS.VStr x) => bool_decide (x = s)
  | _ => false
  end.

(** [v === true] *)
Definition strict_eq_true (v : option JS.value) : bool :=
  match v with
  | Some (JS.VBool true) => true
  | _ => false
  end.

Module Authz.

(** [u?.role] *)
Definition role_of (u : option UserDoc) : option JS.value := u ≫= (λ d, role (profile_of d)).

Definition isAdmin (u : option UserDoc) : bool := strict_eq_string (role_of u) "admin".
Definition isDoctor (u : option UserDoc) : bool := strict_eq_string (role_of u) "doctor".
Definition isNurse (u : option UserDoc) : bool := strict_eq_string (role_of u) "nurse".
Definition isPatient (u : option UserDoc) : bool := strict_eq_string (role_of u) "patient".
Definition isProvider (u : option UserDoc) : bool := isDoctor u || isNurse u.

(** [['admin','doctor','nurse'].includes(u.role)] *)
Definition staff_role (v : option JS.value) : bool :=
  strict_eq_string v "admin" || strict_eq_string v "doctor" || strict_eq_string v "nurse".

Definition isVerifiedStaff (u : option UserDoc) : bool :=
  match u with
  | Some d =>
      staff_role (role (profile_of d))
      && strict_eq_true (isVerified d)
      && strict_eq_true (isActive d)
  | None => false
  end.

End Authz.

(** The request, as the guards read it: [req.user?.uid], [req.profile] and
    [req.params]. *)
Record Request := {
  req_uid : option string;
  req_profile : option UserDoc;
  req_params : gmap string string;
}.

(** What a middleware does: call [next()], or answer with a status and an
    error text. *)
Inductive reply :=
| Next
| Status (code : Z) (error : string).

Module Guards.

Definition requireSignedIn (req : Request) : reply :=
  match req_uid req with
  | Some uid => if JS.truthy uid then Next else Status 401 "Not signed in"
  | None => Status 401 "Not signed in"
  end.

Definition requireAdmin (req : Request) : reply :=
  if negb (Authz.isAdmin (req_profile req)) then Status 403 "Admin only" else Next.

Definition requireDoctorOrAdmin (req : Request) : reply :=
  if negb (Authz.isAdmin (req_profile req) || Authz.isDoctor (req_profile req))
  then Status 403 "Doctor only" else Next.

Definition requireStaffForNotes (req : Request) : reply :=
  if negb (Authz.isAdmin (req_profile req) || Authz.isDoctor (req_profile req)
           || Authz.isNurse (req_profile req))
  then Status 403 "Staff only" else Next.

Definition requireProviderOrAdmin (req : Request) : reply :=
  if negb (Authz.isAdmin (req_profile req) || Authz.isProvider (req_profile req))
  then Status 403 "Provider only" else Next.

Definition requirePatient (req : Request) : reply :=
  if negb (Authz.isPatient (req_profile req)) then Status 403 "Patient only" else Next.

Definition canReadPatientResource (patientId : string) (req : Request) : bool :=
  if Authz.isAdmin (req_profile req) || Authz.isVerifiedStaff (req_profile req) then true
  else if Authz.isPatient (req_profile req) && bool_decide (req_uid req = Some patientId)
       then true
       else false.

Definition requireCanReadPatientResource (paramName : string) (req : Request) : reply :=
  match req_params req !! paramName with
  | Some pid =>
      if negb (JS.truthy pid) then Status 400 "Missing patientId"
      else if negb (canReadPatientResource pid req) then Status 403 "Not allowed"
      else Next
  | None => Status 400 "Missing patientId"
  end.

End Guards.

(** [canCreateResult], [canModifyResult] of [routes/lab.routes.js]. A
    field stored as [null] reads like a missing one under [??]. *)
Module Lab.

Definition canCreateResult (req : Request) : bool :=
  Authz.isAdmin (req_profile req) || Authz.isDoctor (req_profile req)
  || Authz.isNurse (req_profile req) || Authz.isPatient (req_profile req).

(** [existing.uploadedById ?? existing.uploadedByUid] *)
Definition owner (existing : document) : option JS.value :=
  match existing !! "uploadedById" with
  | Some v => Some v
  | None => existing !! "uploadedByUid"
  end.

(** [owner === req.user.uid], the UID being a string or [undefined] *)
Definition owner_is (o : option JS.value) (uid : option string) : bool :=
  match o, uid with
  | Some (JS.VStr s), Some u => bool_decide (s = u)
  | None, None => true
  | _, _ => false
  end.

Definition canModifyResult (req : Request) (existing : document) : bool :=
  if Authz.isAdmin (req_profile req) || Authz.isDoctor (req_profile req) then true
  else (Authz.isNurse (req_profile req) || Authz.isPatient (req_profile req))
       && owner_is (owner existing) (req_uid req).

End Lab.

(** ** Notes: [routes/patient_notes.routes.js]; [toClientId] of the other routes *)

(** [a ?? b] on values that are present or not ([null] and [undefined]
    behave alike under [??]). *)
Definition nullish_or {A} (a b : option A) : option A :=
  match a with
  | Some v => Some v
  | None => b
  end.

(** [requireNonEmptyNoteText(req, res)], from [req.body?.noteText] and
    [req.body?.text]: the trimmed text, or the 400 answer it sends before
    returning [null]. *)
Definition requireNonEmptyNoteText (noteText text : option JS.value) : string + reply :=
  let raw := match nullish_or noteText text with Some v => v | None => JS.VStr "" end in
  let noteText := match raw with JS.VStr s => JS.trim s | _ => "" end in
  if negb (JS.truthy noteText) then inr (Status 400 "noteText is required")
  else inl noteText.

(** [const { _id, ...rest } = doc;
     return { id: _id?.toString?.() ?? String(_id), ...rest }]:
    the fields of [rest] are spread after [id]. An ObjectId is the string
    of its hexadecimal digits. *)
Definition toClientId (doc : document) : document :=
  let id := match doc !! "_id" with
            | Some v => JS.toString v
            | None => "undefined"
            end in
  delete "_id" doc ∪ {[ "id" := JS.VStr id ]}.

(** ** Telemedicine: [routes/telemedicine.routes.js]

    A [Date] that [safeDate] accepts is its time value, an integer number of
    milliseconds; a value that [safeDate] maps to [null] is [None]. *)

(** [Math.max(5, Math.min(180, parseInt(...) || 20))]: [parsed] is the
    result of [parseInt], [None] for [NaN]. *)
Definition slot_minutes (parsed : option Z) : Z :=
  Z.max 5 (Z.min 180 (match parsed with
                      | Some n => if n =? 0 then 20 else n
                      | None => 20
                      end)).

(** [overlaps(aStart, aEnd, bStart, bEnd)] *)
Definition overlaps (aStart aEnd bStart bEnd : Z) : bool :=
  (aStart <? bEnd) && (bStart <? aEnd).

(** The dates of an appointment that step 3 reads, each through [safeDate]. *)
Record Appointment := {
  scheduledAt : option Z;
  scheduledEndAt : option Z;
  requestedStartAt : option Z;
  requestedEndAt : option Z;
}.

(** Step 3: the booked interval of each appointment that has a start. *)
Fixpoint bookings_of (minutes : Z) (appts : list Appointment) : list (Z * Z) :=
  match appts with
  | [] => []
  | a :: r =>
      match nullish_or (scheduledAt a) (requestedStartAt a) with
      | None => bookings_of minutes r
      | Some st =>
          let en := match nullish_or (scheduledEndAt a) (requestedEndAt a) with
                    | Some en => en
                    | None => st + minutes * 60 * 1000
                    end in
          (st, en) :: bookings_of minutes r
      end
  end.

(** Step 2, calendar slots: each slot with both dates valid, clamped to the
    requested range, kept when something is left of it. *)
Fixpoint calendar_windows (from to : Z) (cal : list (option Z * option Z))
  : list (Z * Z) :=
  match cal with
  | [] => []
  | (Some st, Some en) :: r =>
      let clampedStart := if st <? from then from else st in
      let clampedEnd := if en >? to then to else en in
      if clampedEnd >? clampedStart
      then (clampedStart, clampedEnd) :: calendar_windows from to r
      else calendar_windows from to r
  | _ :: r => calendar_windows from to r
  end.

(** [for (const b of bookings) if (overlaps(...)) { blocked = true; break; }] *)
Definition blocked (bookings : list (Z * Z)) (cursor end_ : Z) : bool :=
  existsb (λ b, overlaps cursor end_ b.1 b.2) bookings.

(** The [while] loop of step 4 on one window, at most [fuel] tests of its
    condition. *)
Fixpoint slot_loop (fuel : nat) (now stepMs wEnd : Z) (bookings : list (Z * Z))
    (cursor : Z) : list (Z * Z) :=
  match fuel with
  | O => []
  | S fuel' =>
      if cursor + stepMs <=? wEnd then
        let end_ := cursor + stepMs in
        if end_ <=? now then slot_loop fuel' now stepMs wEnd bookings end_
        else
          (if blocked bookings cursor end_ then [] else [(cursor, end_)])
            ++ slot_loop fuel' now stepMs wEnd bookings end_
      else []
  end.

(** The tests the loop makes before its condition fails. *)
Definition loop_tests (stepMs wEnd cursor : Z) : nat :=
  Z.to_nat ((wEnd - cursor) / stepMs + 1).

Section OpenSlots.

(** The two readings of local time that step 4 makes: [d.getMinutes()], and
    the time value after [d.setSeconds(0, 0)]. *)
Variable getMinutes : Z → Z.
Variable setSeconds00 : Z → Z.

(** The first cursor of a window: its start, moved up to the next multiple
    of [minutes] in the hour when its minute is not one, seconds cleared. *)
Definition first_cursor (minutes wStart : Z) : Z :=
  let minute := getMinutes wStart in
  let mod_ := Z.rem minute minutes in
  if negb (mod_ =? 0)
  then setSeconds00 (wStart + (minutes - mod_) * 60 * 1000)
  else setSeconds00 wStart.

(** The slots step 4 pushes for one window. *)
Definition window_slots (now minutes : Z) (bookings : list (Z * Z)) (w : Z * Z)
  : list (Z * Z) :=
  let stepMs := minutes * 60 * 1000 in
  let cursor := first_cursor minutes w.1 in
  slot_loop (loop_tests stepMs w.2 cursor) now stepMs w.2 bookings cursor.

(** What the route answers. *)
Inductive slots_answer :=
| BadRequest (error : string)
| NoAvailability                                   (* { slots: [] } *)
| Slots (minutes : Z) (slots : list (Z * Z)).      (* { minutes, slots: out } *)

(** GET /open-slots/:providerId, with [from] and [to] after their defaults
    (both are dates then, and the first test of the route cannot fail).
    [calendar] is [uiMap.calendarSlots] with its dates through [safeDate],
    [weekly] the windows that the weekly schedule gives when the calendar
    gives none; [None] stands for a provider without availability. The
    slots are those of the array [out], before it is sorted by start and
    written as ISO strings. *)
Definition open_slots (parsed : option Z) (now from to : Z)
    (uiMap : option (list (option Z * option Z) * list (Z * Z)))
    (appts : list Appointment) : slots_answer :=
  let minutes := slot_minutes parsed in
  if to <=? from then BadRequest "`to` must be after `from`"
  else
    match uiMap with
    | None => NoAvailability
    | Some (calendar, weekly) =>
        let cal := calendar_windows from to calendar in
        let windows := if bool_decide (cal = []) then weekly else cal in
        let bookings := bookings_of minutes appts in
        Slots minutes (flat_map (window_slots now minutes bookings) windows)
    end.

End OpenSlots.

(** A clock in a zone whose offset is a whole number of minutes, here UTC. *)
Definition utc_minutes (t : Z) : Z := (t / 60000) mod 60.
Definition utc_setSeconds00 (t : Z) : Z := t - t mod 60000.

(** A clock in a zone at a fixed offset of [offset] minutes from UTC: local
    time is the time value plus the offset. [d.getMinutes()] is the minute
    of the hour of local time; [d.setSeconds(0, 0)] clears the seconds and
    milliseconds of local time and goes back to the time value. *)
Definition local_time (offset t : Z) : Z := t + offset * 60000.

Definition zone_minutes (offset t : Z) : Z := (local_time offset t / 60000) mod 60.

Definition zone_setSeconds00 (offset t : Z) : Z :=
  let local := local_time offset t in
  (local - local mod 60000) - offset * 60000.

(** A value of a filter object of the record store. *)
#[warnings="-register-all"]
Inductive cond :=
| CEq (value : string)                                (* { field: value } *)
| CIn (values : list string)                          (* { $in: [...] } *)
| CRange (gte lt : Z)                                 (* { $gte: .., $lt: .. } *)
| CAny (alternatives : list (list (string * cond))).  (* $or: [{...}, ...] *)

(** An object literal [{ k1: v1, k2: v2, ... }]: a property written twice
    keeps the value written last. *)
Definition object_literal (props : list (string * cond)) : gmap string cond :=
  foldl (λ o kv, <[kv.1 := kv.2]> o) ∅ props.

(** [const activeStatuses = [...]] *)
Definition activeStatuses : list string :=
  ["requested"; "upcoming"; "scheduled"; "inProgress"; "in_progress"; "in-progress"].

(** The filter of step 3 of the open-slots route, as its literal is written. *)
Definition booked_filter (providerId : string) (from to : Z) : gmap string cond :=
  object_literal
    [ ("$or", CAny [ [("providerId", CEq providerId)];
                     [("providerUid", CEq providerId)] ]);
      ("status", CIn activeStatuses);
      ("$or", CAny [ [("scheduledAt", CRange from to)];
                     [("requestedStartAt", CRange from to)] ]) ].

(** * Properties *)

(** ** Blank strings *)

Lemma trimStart_empty s : JS.trimStart s = "" ↔ all_white s = true.
Proof.
  induction s as [|c r IH]; simpl; [done|].
  destruct (JS.is_white_space c); simpl; [done|]. split; discriminate.
Qed.

Lemma trimStart_head s c r : JS.trimStart s = String c r → JS.is_white_space c = false.
Proof.
  induction s as [|c' r' IH]; simpl; [discriminate|].
  destruct (JS.is_white_space c') eqn:E; [done|]. intros [= <- <-]. done.
Qed.

Lemma trimEnd_cons_nonempty c r : JS.is_white_space c = false → JS.trimEnd (String c r) ≠ "".
Proof. intros E. simpl. rewrite E. by destruct (JS.trimEnd r). Qed.

Lemma trim_empty s : JS.trim s = "" ↔ all_white s = true.
Proof.
  rewrite <- trimStart_empty. unfold JS.trim. split.
  - destruct (JS.trimStart s) as [|c r] eqn:E; [done|].
    intros H. by apply trimEnd_cons_nonempty in H; [|by eapply trimStart_head].
  - by intros ->.
Qed.

Lemma nonblank_all_white s : nonblank s ↔ all_white s = false.
Proof.
  unfold nonblank. rewrite trim_empty. split.
  - intros [_ H]. by destruct (all_white s).
  - intros H. split; [by intros -> | by rewrite H].
Qed.

Lemma truthy_true s : JS.truthy s = true ↔ s ≠ "".
Proof.
  unfold JS.truthy. rewrite negb_true_iff. split.
  - intros H ->. by rewrite String.eqb_refl in H.
  - intros H. by apply String.eqb_neq.
Qed.

(** ** The Set *)

Lemma elem_of_set_add y x l : y ∈ set_add x l ↔ y = x ∨ y ∈ l.
Proof.
  unfold set_add. case_decide as Hx.
  - split; [by right | by intros [->|?]].
  - rewrite elem_of_app, list_elem_of_singleton. tauto.
Qed.

(** ** Running the monad *)

#[global] Instance grows_refl : Reflexive grows.
Proof. by intros s. Qed.

#[global] Instance grows_trans : Transitive grows.
Proof. intros s1 s2 s3 [? ?] [? ?]. split; by etrans. Qed.

Lemma monotone_ret {A} (a : A) : monotone (ret a).
Proof. by intros s o s' [= <- <-]. Qed.

Lemma monotone_bind {A B} (m : M A) (k : A → M B) :
  monotone m → (∀ a, monotone (k a)) → monotone (bind m k).
Proof.
  intros Hm Hk s o s'. unfold bind.
  destruct (m s) as [[a|] s1] eqn:E.
  - intros H. etrans; [by eapply Hm | by eapply Hk].
  - intros [= <- <-]. by eapply Hm.
Qed.

Lemma monotone_add x : monotone (add x).
Proof.
  intros s o s' [= <- <-]. split; simpl; [|done].
  intros y ?. apply elem_of_set_add. by right.
Qed.

Lemma monotone_forEach_add docs : monotone (forEach_add docs).
Proof.
  induction docs as [|d r IH]; simpl.
  - apply monotone_ret.
  - apply monotone_bind; [apply monotone_add | done].
Qed.

Lemma monotone_try_catch body msg : monotone body → monotone (try_catch body msg).
Proof.
  intros Hb s o s'. unfold try_catch.
  destruct (body s) as [[a|] s1] eqn:E; intros [= <- <-];
    destruct (Hb _ _ _ E); by split.
Qed.

Lemma monotone_await_where admin f v n : monotone (await_where admin f v n).
Proof.
  intros s o s'. unfold await_where.
  destruct (where_get admin f v n); intros [= <- <-];
    (split; simpl; [done | by apply prefix_app_r]).
Qed.

Lemma monotone_await_doc admin id : monotone (await_doc admin id).
Proof.
  intros s o s'. unfold await_doc.
  destruct (doc_get admin id); intros [= <- <-];
    (split; simpl; [done | by apply prefix_app_r]).
Qed.

Lemma monotone_if {A} (b : bool) (m1 m2 : M A) :
  monotone m1 → monotone m2 → monotone (if b then m1 else m2).
Proof. by destruct b. Qed.

Lemma monotone_add_all docs : monotone (add_all docs).
Proof. unfold add_all. apply monotone_if; [apply monotone_forEach_add | apply monotone_ret]. Qed.

Lemma monotone_add_first docs : monotone (add_first docs).
Proof. destruct docs; [apply monotone_ret | apply monotone_add]. Qed.

Lemma monotone_add_userId data : monotone (add_userId data).
Proof.
  unfold add_userId. destruct (f_userId data); [|apply monotone_ret].
  apply monotone_if; [apply monotone_add | apply monotone_ret].
Qed.

Lemma monotone_skip : monotone skip.
Proof. apply monotone_ret. Qed.

Create HintDb mono discriminated.
#[global] Hint Resolve monotone_skip monotone_ret monotone_add monotone_forEach_add monotone_await_where
  monotone_await_doc monotone_add_all monotone_add_first monotone_add_userId : mono.

Ltac solve_monotone :=
  repeat first
    [ apply monotone_try_catch
    | apply monotone_bind; [|intros ?]
    | apply monotone_if
    | solve [auto with mono]
    | match goal with |- monotone (match ?x with _ => _ end) => destruct x end ].

(** ** The strategies never throw *)

Lemma catches_try_catch body msg : catches (try_catch body msg).
Proof. intros s. unfold try_catch. by destruct (body s) as [[[]|] ?]. Qed.

Lemma catches_add x : catches (add x).
Proof. done. Qed.

Lemma catches_skip : catches skip.
Proof. done. Qed.

Lemma catches_if (b : bool) m1 m2 : catches m1 → catches m2 → catches (if b then m1 else m2).
Proof. by destruct b. Qed.

Lemma catches_strategy1 p : catches (strategy1 p).
Proof.
  unfold strategy1. destruct (p ≫= patientId); [|apply catches_skip].
  apply catches_if; [apply catches_add | apply catches_skip].
Qed.

(** The guard of strategy 1b reads a property that no string has, and
    compares [undefined] with [true]: the strategy never runs. *)
Lemma strategy1b_skip admin isPatient p s : strategy1b admin isPatient p s = (Ok tt, s).
Proof.
  unfold strategy1b. destruct (p ≫= phone); [|done].
  unfold JS.get_isNotEmpty, JS.loose_eq_true. by rewrite andb_false_r.
Qed.

Lemma bind_catches {B} (m : M unit) (k : unit → M B) s :
  catches m → bind m k s = k tt (m s).2.
Proof.
  intros H. unfold bind. specialize (H s).
  destruct (m s) as [[[]|] s1]; simpl in *; [done | discriminate].
Qed.

Lemma catches_bind (m : M unit) (k : unit → M unit) :
  catches m → catches (k tt) → catches (bind m k).
Proof. intros Hm Hk s. rewrite bind_catches by done. apply Hk. Qed.

Lemma catches_strategy1b admin isPatient p : catches (strategy1b admin isPatient p).
Proof. intros s. by rewrite strategy1b_skip. Qed.

Ltac solve_catches :=
  unfold strategy2, strategy2c, strategy3;
  repeat first
    [ apply catches_try_catch | apply catches_skip | apply catches_add
    | apply catches_strategy1 | apply catches_strategy1b | apply catches_if ].

Lemma catches_seeds rid uid p : catches (seeds rid uid p).
Proof. unfold seeds. repeat (apply catches_bind; [solve_catches|]). solve_catches. Qed.

Lemma catches_active_strategy admin rid uid p : catches (active_strategy admin rid uid p).
Proof. unfold active_strategy. solve_catches. Qed.

(** A call is its seeds followed by the one strategy its guards select. *)
Lemma run_resolve_eq admin rid uid p :
  run_resolve admin rid uid p =
    let s1 := (active_strategy admin rid uid p (seed_state rid uid p)).2 in
    (Ok (filter nonblank (patientIds s1)), s1).
Proof.
  unfold run_resolve, resolve_body, seed_state, seeds, active_strategy.
  fold init.
  repeat (rewrite bind_catches by solve_catches).
  rewrite strategy1b_skip.
  destruct (isPatient_of p), (bool_decide (uid = rid)), (JS.truthy rid); done.
Qed.

Lemma monotone_active_strategy admin rid uid p : monotone (active_strategy admin rid uid p).
Proof. unfold active_strategy, strategy2, strategy2c, strategy3. solve_monotone. Qed.

(** ** What every call returns *)

Lemma resolvePatientIds_eq admin rid uid p :
  resolvePatientIds admin rid uid p =
    Some (filter nonblank (patientIds (final_state admin rid uid p))).
Proof. unfold resolvePatientIds. by rewrite run_resolve_eq. Qed.

Lemma lookups_of_eq admin rid uid p :
  lookups_of admin rid uid p = lookups (final_state admin rid uid p).
Proof. unfold lookups_of. by rewrite run_resolve_eq. Qed.

Lemma seed_state_ids rid uid p y :
  y ∈ patientIds (seed_state rid uid p) ↔
    y = rid ∨
    (isPatient_of p = true ∧ uid ≠ "" ∧ y = uid) ∨
    (∃ pid, p ≫= patientId = Some pid ∧ nonblank pid ∧ y = JS.trim pid).
Proof.
  unfold seed_state, seeds.
  repeat (rewrite bind_catches by solve_catches).
  assert (Hs1 : ∀ s, y ∈ patientIds (strategy1 p s).2 ↔
            y ∈ patientIds s ∨
            ∃ pid, p ≫= patientId = Some pid ∧ nonblank pid ∧ y = JS.trim pid).
  { intros s. unfold strategy1. destruct (p ≫= patientId) as [pid|]; simpl.
    - destruct (JS.truthy pid) eqn:Et; simpl.
      + case_bool_decide as Eb; simpl.
        * split; [by left|]. intros [?|(? & [= <-] & [_ ?] & _)]; done.
        * rewrite elem_of_set_add. split.
          -- intros [->|?]; [right|by left]. exists pid.
             split_and!; [done| |done]. split; [by apply truthy_true | done].
          -- intros [?|(? & [= <-] & _ & ->)]; [by right | by left].
      + split; [by left|]. intros [?|(? & [= <-] & [Hne _] & _)]; [done|].
        apply truthy_true in Hne. congruence.
    - split; [by left|]. intros [?|(? & ? & _)]; done. }
  rewrite Hs1. clear Hs1.
  destruct (isPatient_of p); simpl.
  - destruct (JS.truthy uid) eqn:Eu; simpl.
    + rewrite !elem_of_set_add. apply truthy_true in Eu.
      pose proof (not_elem_of_nil (A:=string) y). naive_solver.
    + rewrite elem_of_set_add.
      assert (uid = "") as ->.
      { destruct (decide (uid = "")); [done|]. apply truthy_true in n. congruence. }
      pose proof (not_elem_of_nil (A:=string) y). naive_solver.
  - rewrite elem_of_set_add.
    pose proof (not_elem_of_nil (A:=string) y). naive_solver.
Qed.

Lemma seed_state_lookups rid uid p : lookups (seed_state rid uid p) = [].
Proof.
  assert (H : ∀ s, lookups (seeds rid uid p s).2 = lookups s); [|apply H].
  intros s. unfold seeds. repeat (rewrite bind_catches by solve_catches).
  unfold strategy1. destruct (p ≫= patientId) as [pid|]; simpl;
    repeat (match goal with |- context [if ?b then _ else _] => destruct b end; simpl);
    done.
Qed.

Lemma final_state_grows admin rid uid p :
  grows (seed_state rid uid p) (final_state admin rid uid p).
Proof.
  unfold final_state.
  destruct (active_strategy admin rid uid p (seed_state rid uid p)) as [o s1] eqn:E.
  by eapply monotone_active_strategy.
Qed.

Lemma elem_of_resolved admin rid uid p ids x :
  resolvePatientIds admin rid uid p = Some ids →
  x ∈ ids ↔ nonblank x ∧ x ∈ patientIds (final_state admin rid uid p).
Proof. rewrite resolvePatientIds_eq. intros [= <-]. apply list_elem_of_filter. Qed.

(** Every id the inputs provide is in the result, if it is not blank. *)
Lemma seed_resolved admin rid uid p ids x :
  resolvePatientIds admin rid uid p = Some ids →
  x ∈ patientIds (seed_state rid uid p) → nonblank x → x ∈ ids.
Proof.
  intros H Hx Hnb. rewrite (elem_of_resolved _ _ _ _ _ _ H). split; [done|].
  by apply (final_state_grows admin rid uid p).
Qed.

(** *** C2 *)

(** C2, as stated, fails: for the blank requested id [""] and a caller that
    is not a patient, the result is the empty array, which in particular
    does not contain the requested id. *)
Lemma C2_blank_requestedId_empty_result :
  resolvePatientIds (store [] no_faults) "" "D7" (with_role "doctor") = Some [] ∧
  ¬ (∃ ids, resolvePatientIds (store [] no_faults) "" "D7" (with_role "doctor") = Some ids
            ∧ "" ∈ ids).
Proof.
  split; [by vm_compute|]. intros (ids & H & Hin).
  vm_compute in H. injection H as <-. by apply not_elem_of_nil in Hin.
Qed.

(** C2, amended: for every non-blank requestedId, every callerAuthId, every
    profile and every behaviour of the chart store, resolve returns, and the
    returned array contains requestedId; it is not empty. *)
Theorem C2_nonblank_requestedId_in_result admin rid uid p :
  nonblank rid →
  ∃ ids, resolvePatientIds admin rid uid p = Some ids ∧ rid ∈ ids ∧ ids ≠ [].
Proof.
  intros Hnb. eexists. split; [apply resolvePatientIds_eq|].
  assert (Hin : rid ∈ filter nonblank (patientIds (final_state admin rid uid p))).
  { eapply seed_resolved; [apply resolvePatientIds_eq | | done].
    apply seed_state_ids. by left. }
  split; [done|]. intros E. rewrite E in Hin. by apply not_elem_of_nil in Hin.
Qed.

Lemma C2_witness :
  ∃ ids, resolvePatientIds (store [] no_faults) "U1" "D7" (with_role "doctor") = Some ids
         ∧ "U1" ∈ ids ∧ ids ≠ [].
Proof. apply C2_nonblank_requestedId_in_result. by vm_compute. Defined.

(** *** C3 *)

(** C3, as stated, fails: the requested id [" U1"] is not blank, its trimmed
    form is ["U1"], and the result holds [" U1"] as given, not ["U1"]. *)
Lemma C3_trimmed_requestedId_absent :
  nonblank " U1" ∧ JS.trim " U1" = "U1" ∧
  resolvePatientIds (store [] no_faults) " U1" "D7" (with_role "doctor") = Some [" U1"] ∧
  JS.trim " U1" ∉ [" U1"].
Proof.
  split_and!; [by vm_compute | by vm_compute | by vm_compute |].
  intros H%list_elem_of_singleton. by vm_compute in H.
Qed.

(** C3, amended: for every input and every behaviour of the chart store,
    resolve returns an array that contains requestedId as it was given (not
    trimmed) whenever requestedId is not blank, and no element of the array
    is empty or whitespace-only. *)
Theorem C3_requestedId_kept_no_blank admin rid uid p :
  ∃ ids, resolvePatientIds admin rid uid p = Some ids ∧
         (all_white rid = false → rid ∈ ids) ∧
         (∀ x, x ∈ ids → all_white x = false).
Proof.
  eexists. split; [apply resolvePatientIds_eq|]. split.
  - intros Hnb%nonblank_all_white.
    eapply seed_resolved; [apply resolvePatientIds_eq | | done].
    apply seed_state_ids. by left.
  - intros x [Hx _]%list_elem_of_filter. by apply nonblank_all_white.
Qed.

Lemma C3_witness :
  ∃ ids, resolvePatientIds (store [] no_faults) " U1" "D7" (with_role "doctor") = Some ids ∧
         (all_white " U1" = false → " U1" ∈ ids) ∧
         (∀ x, x ∈ ids → all_white x = false).
Proof. apply (C3_requestedId_kept_no_blank (store [] no_faults) " U1" "D7"). Defined.

(** *** C4 *)

(** C4: when the profile's role is 'patient' and callerAuthId is not blank,
    the result contains callerAuthId, however the lookups of the chart
    store behave (each may resolve to anything or reject). *)
Theorem C4_patient_uid_in_result admin rid uid p :
  p ≫= role = Some (JS.VStr "patient") →
  nonblank uid →
  ∃ ids, resolvePatientIds admin rid uid p = Some ids ∧ uid ∈ ids.
Proof.
  intros Hrole Hnb. eexists. split; [apply resolvePatientIds_eq|].
  eapply seed_resolved; [apply resolvePatientIds_eq | | done].
  apply seed_state_ids. right. left. split_and!; [|by destruct Hnb|done].
  unfold isPatient_of. by rewrite Hrole.
Qed.

Lemma C4_witness :
  ∃ ids, resolvePatientIds (store [] (λ _, true)) "C1" "U1" (with_role "patient") = Some ids
         ∧ "U1" ∈ ids.
Proof. apply C4_patient_uid_in_result; by vm_compute. Defined.

(** ** Effects of the pieces of a strategy *)

Lemma bind_await_where_ok {B} admin f v n docs (k : _ → M B) s :
  where_get admin f v n = Some docs →
  bind (await_where admin f v n) k s = k docs (issue (Where f v n) s).
Proof. intros H. unfold bind, await_where. by rewrite H. Qed.

Lemma bind_await_where_fail {B} admin f v n (k : _ → M B) s :
  where_get admin f v n = None →
  bind (await_where admin f v n) k s = (Throw, issue (Where f v n) s).
Proof. intros H. unfold bind, await_where. by rewrite H. Qed.

Lemma bind_await_doc_ok {B} admin id snap (k : _ → M B) s :
  doc_get admin id = Some snap →
  bind (await_doc admin id) k s = k snap (issue (Doc id) s).
Proof. intros H. unfold bind, await_doc. by rewrite H. Qed.

Lemma bind_await_doc_fail {B} admin id (k : _ → M B) s :
  doc_get admin id = None →
  bind (await_doc admin id) k s = (Throw, issue (Doc id) s).
Proof. intros H. unfold bind, await_doc. by rewrite H. Qed.

Lemma run_unit (m : M unit) s : catches m → m s = (Ok tt, (m s).2).
Proof. intros H. specialize (H s). destruct (m s) as [o s1]. simpl in *. by subst. Qed.

Lemma forEach_add_ids docs s y :
  y ∈ patientIds (forEach_add docs s).2 ↔ y ∈ patientIds s ∨ y ∈ doc_ids docs.
Proof.
  revert s. induction docs as [|d r IH]; intros s; simpl.
  - rewrite elem_of_nil. tauto.
  - rewrite bind_catches by apply catches_add. rewrite IH. simpl.
    rewrite elem_of_set_add, elem_of_cons. tauto.
Qed.

Lemma forEach_add_lookups docs s : lookups (forEach_add docs s).2 = lookups s.
Proof.
  revert s. induction docs as [|d r IH]; intros s; simpl; [done|].
  rewrite bind_catches by apply catches_add. by rewrite IH.
Qed.

Lemma catches_forEach_add docs : catches (forEach_add docs).
Proof.
  induction docs as [|d r IH]; simpl; [apply catches_skip|].
  apply catches_bind; [apply catches_add | done].
Qed.

Lemma catches_add_all docs : catches (add_all docs).
Proof. apply catches_if; [apply catches_forEach_add | apply catches_skip]. Qed.

Lemma add_all_ids docs s y :
  y ∈ patientIds (add_all docs s).2 ↔ y ∈ patientIds s ∨ y ∈ doc_ids docs.
Proof.
  unfold add_all. case_bool_decide as E; simpl.
  - subst. unfold doc_ids. rewrite fmap_nil, elem_of_nil. tauto.
  - apply forEach_add_ids.
Qed.

Lemma add_all_lookups docs s : lookups (add_all docs s).2 = lookups s.
Proof. unfold add_all. case_bool_decide; simpl; [done | apply forEach_add_lookups]. Qed.

Lemma catches_add_first docs : catches (add_first docs).
Proof. destruct docs; [apply catches_skip | apply catches_add]. Qed.

Lemma add_first_ids docs s y :
  y ∈ patientIds (add_first docs s).2 ↔ y ∈ patientIds s ∨ head (doc_ids docs) = Some y.
Proof.
  destruct docs as [|d r]; simpl.
  - split; [by left | by intros [?|?]].
  - rewrite elem_of_set_add. split; intros [?|?]; try (by right); try (by left).
    + right. by subst.
    + left. congruence.
Qed.

Lemma add_first_lookups docs s : lookups (add_first docs s).2 = lookups s.
Proof. by destruct docs. Qed.

Lemma catches_add_userId data : catches (add_userId data).
Proof.
  unfold add_userId. destruct (f_userId data); [|apply catches_skip].
  apply catches_if; [apply catches_add | apply catches_skip].
Qed.

Lemma add_userId_ids data s y :
  y ∈ patientIds (add_userId data s).2 ↔
    y ∈ patientIds s ∨ (f_userId data = Some y ∧ y ≠ "").
Proof.
  unfold add_userId. destruct (f_userId data) as [u|]; simpl.
  - destruct (JS.truthy u) eqn:E; simpl.
    + apply truthy_true in E. rewrite elem_of_set_add. split.
      * intros [->|?]; [by right | by left].
      * intros [?|[[= ->] _]]; [by right | by left].
    + split; [by left|]. intros [?|[[= ->] Hne]]; [done|].
      apply truthy_true in Hne. congruence.
  - split; [by left|]. by intros [?|[? _]].
Qed.

Lemma add_userId_lookups data s : lookups (add_userId data s).2 = lookups s.
Proof.
  unfold add_userId. destruct (f_userId data) as [u|]; [|done]. by destruct (JS.truthy u).
Qed.

(** Evaluation of a strategy body, lookup by lookup. *)
Ltac step_ok H := first
  [ rewrite (bind_await_where_ok _ _ _ _ _ _ _ H)
  | rewrite (bind_await_doc_ok _ _ _ _ _ H) ].
Ltac step_fail H := first
  [ rewrite (bind_await_where_fail _ _ _ _ _ _ H)
  | rewrite (bind_await_doc_fail _ _ _ _ H) ].
Ltac step_add :=
  rewrite bind_catches by
    first [ apply catches_add_all | apply catches_add_first | apply catches_add_userId
          | apply catches_add | apply catches_skip ].

Lemma try_catch_state body msg s o s1 :
  body s = (o, s1) →
  (try_catch body msg s).2 = match o with Ok _ => s1 | Throw => log_error msg s1 end.
Proof. unfold try_catch. intros ->. by destruct o. Qed.

(** Which strategy a call selects. *)
Lemma final_state_self admin rid p :
  isPatient_of p = true →
  final_state admin rid rid p = (strategy2 admin rid (seed_state rid rid p)).2.
Proof.
  intros Hp. unfold final_state, active_strategy. by rewrite Hp, bool_decide_eq_true_2.
Qed.

Lemma final_state_other admin rid uid p :
  isPatient_of p = true → uid ≠ rid → rid ≠ "" →
  final_state admin rid uid p = (strategy2c admin rid uid (seed_state rid uid p)).2.
Proof.
  intros Hp Hne Hrid%truthy_true. unfold final_state, active_strategy.
  by rewrite Hp, bool_decide_eq_false_2, Hrid.
Qed.

Lemma final_state_staff admin rid uid p :
  isPatient_of p = false → rid ≠ "" →
  final_state admin rid uid p = (strategy3 admin rid (seed_state rid uid p)).2.
Proof.
  intros Hp Hrid%truthy_true. unfold final_state, active_strategy. by rewrite Hp, Hrid.
Qed.

Ltac eval_strategy :=
  erewrite try_catch_state;
  [| repeat first
       [ step_add
       | match goal with
         | H : where_get _ _ _ _ = Some _ |- _ => step_ok H
         | H : doc_get _ _ = Some _ |- _ => step_ok H
         | H : where_get _ _ _ _ = None |- _ => step_fail H
         | H : doc_get _ _ = None |- _ => step_fail H
         | H : ds_data ?d = _ |- context [ds_data ?d] => rewrite H
         end ];
     first [ reflexivity
           | apply run_unit;
             first [ apply catches_add_all | apply catches_add_first
                   | apply catches_add_userId | apply catches_add | apply catches_skip ] ] ];
  cbv beta iota.

(** ** Strategy 3, case by case *)

Section Staff.

Context (admin : Firestore) (rid uid : string) (p : option Profile).
Hypothesis Hstaff : isPatient_of p = false.
Hypothesis Hrid : rid ≠ "".

Lemma staff_doc_rejected :
  doc_get admin rid = None →
  lookups (final_state admin rid uid p) = [Doc rid] ∧ patientIds (final_state admin rid uid p) = patientIds (seed_state rid uid p).
Proof.
  intros H. rewrite final_state_staff by done. unfold strategy3.
  eval_strategy. simpl. by rewrite seed_state_lookups.
Qed.

Lemma staff_doc_found snap data :
  doc_get admin rid = Some snap → ds_data snap = Some data →
  lookups (final_state admin rid uid p) = [Doc rid] ∧
  ∀ y, y ∈ patientIds (final_state admin rid uid p) ↔ y ∈ patientIds (seed_state rid uid p) ∨ (f_userId data = Some y ∧ y ≠ "").
Proof.
  intros H Hd. rewrite final_state_staff by done. unfold strategy3.
  eval_strategy. split.
  - rewrite add_userId_lookups. simpl. by rewrite seed_state_lookups.
  - intros y. by rewrite add_userId_ids.
Qed.

Lemma staff_id_search_rejected snap :
  doc_get admin rid = Some snap → ds_data snap = None →
  where_get admin F_id rid 1 = None →
  lookups (final_state admin rid uid p) = [Doc rid; Where F_id rid 1] ∧ patientIds (final_state admin rid uid p) = patientIds (seed_state rid uid p).
Proof.
  intros H Hd H1. rewrite final_state_staff by done. unfold strategy3.
  eval_strategy. simpl. by rewrite seed_state_lookups.
Qed.

Lemma staff_userId_search_rejected snap A :
  doc_get admin rid = Some snap → ds_data snap = None →
  where_get admin F_id rid 1 = Some A →
  where_get admin F_userId rid 1 = None →
  lookups (final_state admin rid uid p) = [Doc rid; Where F_id rid 1; Where F_userId rid 1] ∧
  ∀ y, y ∈ patientIds (final_state admin rid uid p) ↔ y ∈ patientIds (seed_state rid uid p) ∨ head (doc_ids A) = Some y.
Proof.
  intros H Hd H1 H2. rewrite final_state_staff by done. unfold strategy3.
  eval_strategy. simpl. split.
  - rewrite add_first_lookups. simpl. by rewrite seed_state_lookups.
  - intros y. by rewrite add_first_ids.
Qed.

Lemma staff_searched snap A B :
  doc_get admin rid = Some snap → ds_data snap = None →
  where_get admin F_id rid 1 = Some A →
  where_get admin F_userId rid 1 = Some B →
  lookups (final_state admin rid uid p) = [Doc rid; Where F_id rid 1; Where F_userId rid 1] ∧
  ∀ y, y ∈ patientIds (final_state admin rid uid p) ↔
         y ∈ patientIds (seed_state rid uid p) ∨ head (doc_ids A) = Some y ∨ head (doc_ids B) = Some y.
Proof.
  intros H Hd H1 H2. rewrite final_state_staff by done. unfold strategy3.
  eval_strategy. split.
  - rewrite add_first_lookups. simpl. rewrite add_first_lookups. simpl.
    by rewrite seed_state_lookups.
  - intros y. rewrite add_first_ids. simpl. rewrite add_first_ids. simpl. tauto.
Qed.

End Staff.

(** ** Strategy 2, case by case *)

Section Self.

Context (admin : Firestore) (rid : string) (p : option Profile).
Hypothesis Hpatient : isPatient_of p = true.

Lemma self_id_search_rejected :
  where_get admin F_id rid 5 = None →
  lookups (final_state admin rid rid p) = [Where F_id rid 5] ∧ patientIds (final_state admin rid rid p) = patientIds (seed_state rid rid p).
Proof.
  intros H1. rewrite final_state_self by done. unfold strategy2.
  eval_strategy. simpl. by rewrite seed_state_lookups.
Qed.

Lemma self_userId_search_rejected A :
  where_get admin F_id rid 5 = Some A →
  where_get admin F_userId rid 5 = None →
  lookups (final_state admin rid rid p) = [Where F_id rid 5; Where F_userId rid 5] ∧
  ∀ y, y ∈ patientIds (final_state admin rid rid p) ↔ y ∈ patientIds (seed_state rid rid p) ∨ y ∈ doc_ids A.
Proof.
  intros H1 H2. rewrite final_state_self by done. unfold strategy2.
  eval_strategy. simpl. split.
  - by rewrite add_all_lookups; simpl; rewrite seed_state_lookups.
  - intros y. by rewrite add_all_ids.
Qed.

Lemma self_doc_rejected A B :
  where_get admin F_id rid 5 = Some A →
  where_get admin F_userId rid 5 = Some B →
  doc_get admin rid = None →
  lookups (final_state admin rid rid p) = [Where F_id rid 5; Where F_userId rid 5; Doc rid] ∧
  ∀ y, y ∈ patientIds (final_state admin rid rid p) ↔ y ∈ patientIds (seed_state rid rid p) ∨ y ∈ doc_ids A ∨ y ∈ doc_ids B.
Proof.
  intros H1 H2 H3. rewrite final_state_self by done. unfold strategy2.
  eval_strategy. simpl. split.
  - rewrite add_all_lookups; simpl. rewrite add_all_lookups; simpl.
    by rewrite seed_state_lookups.
  - intros y. rewrite add_all_ids; simpl. rewrite add_all_ids; simpl. tauto.
Qed.

Lemma self_all_resolved A B snap :
  where_get admin F_id rid 5 = Some A →
  where_get admin F_userId rid 5 = Some B →
  doc_get admin rid = Some snap →
  lookups (final_state admin rid rid p) = [Where F_id rid 5; Where F_userId rid 5; Doc rid] ∧
  ∀ y, y ∈ patientIds (final_state admin rid rid p) ↔
         y ∈ patientIds (seed_state rid rid p) ∨ y ∈ doc_ids A ∨ y ∈ doc_ids B ∨
         ∃ data, ds_data snap = Some data ∧
                 (y = ds_id snap ∨ (f_userId data = Some y ∧ y ≠ "" ∧ y ≠ rid)).
Proof.
  intros H1 H2 H3. rewrite final_state_self by done. unfold strategy2.
  set (tail := λ d : DocumentSnapshot, match ds_data d with Some _ => _ | None => _ end).
  assert (Htail : ∀ s,
    (tail snap s).1 = Ok tt ∧ lookups (tail snap s).2 = lookups s ∧
    ∀ y, y ∈ patientIds (tail snap s).2 ↔
           y ∈ patientIds s ∨
           ∃ data, ds_data snap = Some data ∧
                   (y = ds_id snap ∨ (f_userId data = Some y ∧ y ≠ "" ∧ y ≠ rid))).
  { intros s. subst tail. cbv beta. destruct (ds_data snap) as [data|]; simpl.
    - rewrite bind_catches by apply catches_add.
      destruct (f_userId data) as [u|] eqn:Hu; simpl.
      + destruct (JS.truthy u) eqn:Et; simpl.
        * apply truthy_true in Et. case_bool_decide as Eu; simpl.
          -- split_and!; [done..|]. intros y. rewrite elem_of_set_add. naive_solver.
          -- split_and!; [done..|]. intros y. rewrite !elem_of_set_add. naive_solver.
        * assert (u = "") as ->.
          { destruct (decide (u = "")) as [|n]; [done|]. apply truthy_true in n. congruence. }
          split_and!; [done..|]. intros y. rewrite elem_of_set_add. naive_solver.
      + split_and!; [done..|]. intros y. rewrite elem_of_set_add. naive_solver.
    - split_and!; [done..|]. intros y. naive_solver. }
  erewrite try_catch_state;
    [| step_ok H1; step_add; step_ok H2; step_add; step_ok H3;
       apply run_unit; intros s; apply Htail ].
  cbv beta iota. destruct (Htail (issue (Doc rid) (add_all B (issue (Where F_userId rid 5)
    (add_all A (issue (Where F_id rid 5) (seed_state rid rid p))).2)).2)) as (_ & -> & Hy).
  split.
  - simpl. rewrite add_all_lookups; simpl. rewrite add_all_lookups; simpl.
    by rewrite seed_state_lookups.
  - intros y. rewrite Hy. simpl. rewrite add_all_ids; simpl. rewrite add_all_ids; simpl.
    tauto.
Qed.

End Self.

(** ** Strategy 2c, case by case *)

Section Other.

Context (admin : Firestore) (rid uid : string) (p : option Profile).
Hypothesis Hpatient : isPatient_of p = true.
Hypothesis Hother : uid ≠ rid.
Hypothesis Hrid : rid ≠ "".

Lemma other_doc_rejected :
  doc_get admin rid = None →
  lookups (final_state admin rid uid p) = [Doc rid] ∧ patientIds (final_state admin rid uid p) = patientIds (seed_state rid uid p).
Proof.
  intros H1. rewrite final_state_other by done. unfold strategy2c.
  eval_strategy. simpl. by rewrite seed_state_lookups.
Qed.

Lemma other_owner_step snap s :
  (match ds_data snap with Some data => add_userId data | None => skip end s).1 = Ok tt ∧
  lookups (match ds_data snap with Some data => add_userId data | None => skip end s).2
    = lookups s ∧
  ∀ y, y ∈ patientIds
             (match ds_data snap with Some data => add_userId data | None => skip end s).2
       ↔ y ∈ patientIds s ∨ owner_of snap y.
Proof.
  unfold owner_of. destruct (ds_data snap) as [data|].
  - split_and!; [apply catches_add_userId | apply add_userId_lookups |].
    intros y. rewrite add_userId_ids. naive_solver.
  - split_and!; [done..|]. intros y. naive_solver.
Qed.

Lemma other_id_search_rejected snap :
  doc_get admin rid = Some snap → uid ≠ "" →
  where_get admin F_id uid 5 = None →
  lookups (final_state admin rid uid p) = [Doc rid; Where F_id uid 5] ∧
  ∀ y, y ∈ patientIds (final_state admin rid uid p) ↔ y ∈ patientIds (seed_state rid uid p) ∨ owner_of snap y.
Proof.
  intros H1 Hu%truthy_true H2. rewrite final_state_other by done.
  unfold strategy2c.
  erewrite try_catch_state;
    [| step_ok H1; rewrite bind_catches by (intros s; apply other_owner_step);
       rewrite Hu; step_fail H2; reflexivity ].
  simpl. destruct (other_owner_step snap (issue (Doc rid) (seed_state rid uid p)))
    as (_ & -> & Hy).
  split; [by simpl; rewrite seed_state_lookups|]. intros y. by rewrite Hy.
Qed.

Lemma other_no_uid snap :
  doc_get admin rid = Some snap → uid = "" →
  lookups (final_state admin rid uid p) = [Doc rid] ∧
  ∀ y, y ∈ patientIds (final_state admin rid uid p) ↔ y ∈ patientIds (seed_state rid uid p) ∨ owner_of snap y.
Proof.
  intros H1 ->. rewrite final_state_other by done.
  unfold strategy2c.
  erewrite try_catch_state;
    [| step_ok H1; rewrite bind_catches by (intros s; apply other_owner_step);
       reflexivity ].
  simpl. destruct (other_owner_step snap (issue (Doc rid) (seed_state rid "" p)))
    as (_ & -> & Hy).
  split; [by simpl; rewrite seed_state_lookups|]. intros y. by rewrite Hy.
Qed.

Lemma other_userId_search_rejected snap A :
  doc_get admin rid = Some snap → uid ≠ "" →
  where_get admin F_id uid 5 = Some A →
  where_get admin F_userId uid 5 = None →
  lookups (final_state admin rid uid p) = [Doc rid; Where F_id uid 5; Where F_userId uid 5] ∧
  ∀ y, y ∈ patientIds (final_state admin rid uid p) ↔ y ∈ patientIds (seed_state rid uid p) ∨ owner_of snap y ∨ y ∈ doc_ids A.
Proof.
  intros H1 Hu%truthy_true H2 H3. rewrite final_state_other by done.
  unfold strategy2c.
  erewrite try_catch_state;
    [| step_ok H1; rewrite bind_catches by (intros s; apply other_owner_step);
       rewrite Hu; step_ok H2; step_add; step_fail H3; reflexivity ].
  simpl. destruct (other_owner_step snap (issue (Doc rid) (seed_state rid uid p)))
    as (_ & Hl & Hy).
  split.
  - rewrite add_all_lookups. simpl. rewrite Hl. simpl. by rewrite seed_state_lookups.
  - intros y. rewrite add_all_ids. simpl. rewrite Hy. simpl. tauto.
Qed.

Lemma other_all_resolved snap A B :
  doc_get admin rid = Some snap → uid ≠ "" →
  where_get admin F_id uid 5 = Some A →
  where_get admin F_userId uid 5 = Some B →
  lookups (final_state admin rid uid p) = [Doc rid; Where F_id uid 5; Where F_userId uid 5] ∧
  ∀ y, y ∈ patientIds (final_state admin rid uid p) ↔
         y ∈ patientIds (seed_state rid uid p) ∨ owner_of snap y ∨ y ∈ doc_ids A ∨ y ∈ doc_ids B.
Proof.
  intros H1 Hu%truthy_true H2 H3. rewrite final_state_other by done.
  unfold strategy2c.
  erewrite try_catch_state;
    [| step_ok H1; rewrite bind_catches by (intros s; apply other_owner_step);
       rewrite Hu; step_ok H2; step_add; step_ok H3;
       apply run_unit, catches_add_all ].
  cbv beta iota.
  destruct (other_owner_step snap (issue (Doc rid) (seed_state rid uid p)))
    as (_ & Hl & Hy).
  split.
  - rewrite add_all_lookups. simpl. rewrite add_all_lookups. simpl. rewrite Hl. simpl.
    by rewrite seed_state_lookups.
  - intros y. rewrite add_all_ids. simpl. rewrite add_all_ids. simpl. rewrite Hy. simpl.
    tauto.
Qed.

End Other.

(** ** Which lookups a strategy can issue *)

Lemma issues_only_ret {A} P (a : A) : issues_only P (ret a).
Proof. intros s o s' [= <- <-]. exists []. by rewrite app_nil_r. Qed.

Lemma issues_only_bind {A B} P (m : M A) (k : A → M B) :
  issues_only P m → (∀ a, issues_only P (k a)) → issues_only P (bind m k).
Proof.
  intros Hm Hk s o s'. unfold bind. destruct (m s) as [[a|] s1] eqn:E.
  - intros H. destruct (Hm _ _ _ E) as (q1 & E1 & F1).
    destruct (Hk _ _ _ _ H) as (q2 & E2 & F2).
    exists (q1 ++ q2)%list. rewrite E2, E1, app_assoc. split; [done|]. by apply Forall_app.
  - intros [= <- <-]. by eapply Hm.
Qed.

Lemma issues_only_add P x : issues_only P (add x).
Proof. intros s o s' [= <- <-]. exists []. by rewrite app_nil_r. Qed.

Lemma issues_only_skip P : issues_only P skip.
Proof. apply issues_only_ret. Qed.

Lemma issues_only_if {A} P (b : bool) (m1 m2 : M A) :
  issues_only P m1 → issues_only P m2 → issues_only P (if b then m1 else m2).
Proof. by destruct b. Qed.

Lemma issues_only_forEach_add P docs : issues_only P (forEach_add docs).
Proof.
  induction docs as [|d r IH]; simpl; [apply issues_only_skip|].
  apply issues_only_bind; [apply issues_only_add | done].
Qed.

Lemma issues_only_add_all P docs : issues_only P (add_all docs).
Proof. apply issues_only_if; [apply issues_only_forEach_add | apply issues_only_skip]. Qed.

Lemma issues_only_add_first P docs : issues_only P (add_first docs).
Proof. destruct docs; [apply issues_only_skip | apply issues_only_add]. Qed.

Lemma issues_only_add_userId P data : issues_only P (add_userId data).
Proof.
  unfold add_userId. destruct (f_userId data); [|apply issues_only_skip].
  apply issues_only_if; [apply issues_only_add | apply issues_only_skip].
Qed.

Lemma issues_only_await_where P admin f v n :
  P (Where f v n) → issues_only P (await_where admin f v n).
Proof.
  intros HP s o s'. unfold await_where.
  destruct (where_get admin f v n); intros [= <- <-];
    (exists [Where f v n]; split; [done | by apply Forall_singleton]).
Qed.

Lemma issues_only_await_doc P admin id :
  P (Doc id) → issues_only P (await_doc admin id).
Proof.
  intros HP s o s'. unfold await_doc.
  destruct (doc_get admin id); intros [= <- <-];
    (exists [Doc id]; split; [done | by apply Forall_singleton]).
Qed.

Lemma issues_only_try_catch P body msg :
  issues_only P body → issues_only P (try_catch body msg).
Proof.
  intros Hb s o s'. unfold try_catch.
  destruct (body s) as [[a|] s1] eqn:E; intros [= <- <-];
    destruct (Hb _ _ _ E) as (qs & ? & ?); by exists qs.
Qed.

Ltac solve_issues :=
  repeat first
    [ apply issues_only_try_catch
    | apply issues_only_bind; [|intros ?]
    | apply issues_only_await_where; solve [auto]
    | apply issues_only_await_doc; solve [auto]
    | apply issues_only_add_all | apply issues_only_add_first
    | apply issues_only_add_userId | apply issues_only_add | apply issues_only_skip
    | apply issues_only_if
    | match goal with |- issues_only _ (match ?x with _ => _ end) => destruct x end ].

Lemma issues_only_strategy2 P admin rid :
  P (Where F_id rid 5) → P (Where F_userId rid 5) → P (Doc rid) →
  issues_only P (strategy2 admin rid).
Proof. intros. unfold strategy2. solve_issues. Qed.

Lemma issues_only_strategy2c P admin rid uid :
  P (Doc rid) → P (Where F_id uid 5) → P (Where F_userId uid 5) →
  issues_only P (strategy2c admin rid uid).
Proof. intros. unfold strategy2c. solve_issues. Qed.

Lemma issues_only_strategy3 P admin rid :
  P (Doc rid) → P (Where F_id rid 1) → P (Where F_userId rid 1) →
  issues_only P (strategy3 admin rid).
Proof. intros. unfold strategy3. solve_issues. Qed.

(** The lookups of a call are those of its one strategy. *)
Lemma lookups_of_issues P admin rid uid p :
  issues_only P (active_strategy admin rid uid p) →
  Forall P (lookups_of admin rid uid p).
Proof.
  intros H. rewrite lookups_of_eq. unfold final_state.
  destruct (active_strategy admin rid uid p (seed_state rid uid p)) as [o s1] eqn:E.
  destruct (H _ _ _ E) as (qs & Hq & HF). simpl. by rewrite Hq, seed_state_lookups.
Qed.

(** A patient caller: only the limit-5 searches and the fetch by id. *)
Lemma patient_lookups admin rid uid p :
  isPatient_of p = true →
  Forall (λ q, q = Doc rid ∨ ∃ f v, q = Where f v 5 ∧ f ≠ F_phone)
         (lookups_of admin rid uid p).
Proof.
  intros Hp. apply lookups_of_issues. unfold active_strategy. rewrite Hp.
  repeat apply issues_only_if;
    [ apply issues_only_strategy2 | apply issues_only_strategy2c | apply issues_only_skip ];
    naive_solver.
Qed.

(** Any other caller: only the fetch by id and the limit-1 searches. *)
Lemma staff_lookups admin rid uid p :
  isPatient_of p = false →
  Forall (λ q, q = Doc rid ∨ q = Where F_id rid 1 ∨ q = Where F_userId rid 1)
         (lookups_of admin rid uid p).
Proof.
  intros Hp. apply lookups_of_issues. unfold active_strategy. rewrite Hp.
  apply issues_only_if; [apply issues_only_strategy3 | apply issues_only_skip];
    naive_solver.
Qed.

(** *** C1 *)

(** C1 fails on the code. The guard of the phone fallback reads
    [isNotEmpty], which a string does not have, so the fallback is dead: no
    call ever queries the [phone] field. For a patient with phone "555" and
    a chart "C5" holding that phone, with every lookup resolving, the only
    lookups are those of strategy 2 and "C5" is not in the result. *)
Theorem C1_phone_fallback_never_queries :
  (∀ admin rid uid p v n, Where F_phone v n ∉ lookups_of admin rid uid p) ∧
  resolvePatientIds (store [chart "C5" None None (Some "555")] no_faults) "U1" "U1"
    (Some {| role := Some (JS.VStr "patient"); patientId := None;
             phone := Some (JS.VStr "555") |}) = Some ["U1"] ∧
  lookups_of (store [chart "C5" None None (Some "555")] no_faults) "U1" "U1"
    (Some {| role := Some (JS.VStr "patient"); patientId := None;
             phone := Some (JS.VStr "555") |})
  = [Where F_id "U1" 5; Where F_userId "U1" 5; Doc "U1"].
Proof.
  split; [|by vm_compute].
  intros admin rid uid p v n Hin.
  destruct (isPatient_of p) eqn:Hp.
  - pose proof (patient_lookups admin rid uid p Hp) as HF.
    rewrite Forall_forall in HF. destruct (HF _ Hin) as [?|(f & w & [= <- <- ?] & ?)]; done.
  - pose proof (staff_lookups admin rid uid p Hp) as HF.
    rewrite Forall_forall in HF. destruct (HF _ Hin) as [?|[?|?]]; done.
Qed.

(** ** The ids of the inputs *)

Lemma trim_nonblank pid : JS.trim pid ≠ "" → nonblank pid.
Proof. intros H. split; [|done]. by intros ->. Qed.

Lemma input_ids_seed rid uid p y :
  nonblank y → y ∈ input_ids rid uid p ↔ y ∈ patientIds (seed_state rid uid p).
Proof.
  intros [Hy Hty]. rewrite seed_state_ids. unfold input_ids.
  rewrite elem_of_cons, elem_of_app.
  destruct (isPatient_of p), (p ≫= patientId) as [pid|];
    rewrite ?list_elem_of_singleton, ?elem_of_nil; split.
  - intros [?|[?|?]]; [by left | right; left; by subst | right; right].
    exists pid. split_and!; [done | apply trim_nonblank; by subst | done].
  - intros [?|[(_ & _ & ?)|(? & [= <-] & _ & ?)]]; tauto.
  - intros [?|[?|[]]]; [by left | right; left; by subst].
  - intros [?|[(_ & _ & ?)|(? & [=] & _)]]; tauto.
  - intros [?|[[]|?]]; [by left | right; right].
    exists pid. split_and!; [done | apply trim_nonblank; by subst | done].
  - intros [?|[([=] & _)|(? & [= <-] & _ & ?)]]; tauto.
  - intros [?|[[]|[]]]. by left.
  - intros [?|[([=] & _)|(? & [=] & _)]]. by left.
Qed.

Lemma kept_final admin rid uid p l :
  (∀ y, y ∈ l → y ∈ patientIds (final_state admin rid uid p)) →
  kept l (filter nonblank (patientIds (final_state admin rid uid p))).
Proof. intros H y Hy Hnb. apply list_elem_of_filter. split; [done | by apply H]. Qed.

Lemma kept_input_ids admin rid uid p :
  kept (input_ids rid uid p) (filter nonblank (patientIds (final_state admin rid uid p))).
Proof.
  intros y Hy Hnb. apply list_elem_of_filter. split; [done|].
  apply (final_state_grows admin rid uid p). by apply input_ids_seed.
Qed.

(** ** One handler per strategy *)

Lemma self_outcome_holds admin rid p :
  isPatient_of p = true →
  self_outcome admin rid
    (filter nonblank (patientIds (final_state admin rid rid p)))
    (lookups_of admin rid rid p).
Proof.
  intros Hp. unfold self_outcome. rewrite lookups_of_eq.
  destruct (where_get admin F_id rid 5) as [A|] eqn:H1;
    [|by apply self_id_search_rejected].
  destruct (where_get admin F_userId rid 5) as [B|] eqn:H2.
  - destruct (doc_get admin rid) as [snap|] eqn:H3.
    + destruct (self_all_resolved admin rid p Hp A B snap H1 H2 H3) as [Hl Hy].
      split_and!; [| |done|].
      * apply kept_final. intros y ?. apply Hy. tauto.
      * apply kept_final. intros y ?. apply Hy. tauto.
      * intros snap' data [= <-] Hd. split.
        -- apply kept_final. intros y ->%list_elem_of_singleton. apply Hy.
           do 3 right. exists data. tauto.
        -- intros u Hu y ->%list_elem_of_singleton Hnb. apply list_elem_of_filter.
           split; [done|]. destruct (decide (u = rid)) as [->|Hne].
           ++ apply (final_state_grows admin rid rid p), seed_state_ids. by left.
           ++ apply Hy. do 3 right. exists data. destruct Hnb. tauto.
    + destruct (self_doc_rejected admin rid p Hp A B H1 H2 H3) as [Hl Hy].
      split_and!; [| |done|].
      * apply kept_final. intros y ?. apply Hy. tauto.
      * apply kept_final. intros y ?. apply Hy. tauto.
      * intros snap data [=].
  - destruct (self_userId_search_rejected admin rid p Hp A H1 H2) as [Hl Hy].
    split; [|done]. apply kept_final. intros y ?. apply Hy. tauto.
Qed.

Lemma other_outcome_holds admin rid uid p :
  isPatient_of p = true → uid ≠ rid → rid ≠ "" →
  other_outcome admin rid uid
    (filter nonblank (patientIds (final_state admin rid uid p)))
    (lookups_of admin rid uid p).
Proof.
  intros Hp Hne Hrid. unfold other_outcome. rewrite lookups_of_eq.
  destruct (doc_get admin rid) as [snap|] eqn:H1;
    [|by apply other_doc_rejected].
  case_decide as Hu.
  { destruct (other_no_uid admin rid uid p Hp Hne Hrid snap H1 Hu) as [Hl Hy].
    split; [|done]. intros u Ho. apply kept_final.
    intros y ->%list_elem_of_singleton. apply Hy. by right. }
  destruct (where_get admin F_id uid 5) as [A|] eqn:H2.
  - destruct (where_get admin F_userId uid 5) as [B|] eqn:H3.
    + destruct (other_all_resolved admin rid uid p Hp Hne Hrid snap A B H1 Hu H2 H3)
        as [Hl Hy].
      split_and!; [| |done|].
      * intros u Ho. apply kept_final. intros y ->%list_elem_of_singleton.
        apply Hy. tauto.
      * apply kept_final. intros y ?. apply Hy. tauto.
      * intros B' [= <-]. apply kept_final. intros y ?. apply Hy. tauto.
    + destruct (other_userId_search_rejected admin rid uid p Hp Hne Hrid snap A H1 Hu H2 H3)
        as [Hl Hy].
      split_and!; [| |done|].
      * intros u Ho. apply kept_final. intros y ->%list_elem_of_singleton.
        apply Hy. tauto.
      * apply kept_final. intros y ?. apply Hy. tauto.
      * intros B' [=].
  - destruct (other_id_search_rejected admin rid uid p Hp Hne Hrid snap H1 Hu H2)
      as [Hl Hy].
    split; [|done]. intros u Ho. apply kept_final.
    intros y ->%list_elem_of_singleton. apply Hy. by right.
Qed.

Lemma elem_of_take_1 (l : list string) y : y ∈ take 1 l ↔ head l = Some y.
Proof.
  destruct l as [|x r]; simpl; [by rewrite elem_of_nil|].
  rewrite take_0, list_elem_of_singleton. split; [by intros -> | by intros [= ->]].
Qed.

Lemma staff_outcome_holds admin rid uid p :
  isPatient_of p = false → rid ≠ "" →
  staff_outcome admin rid
    (filter nonblank (patientIds (final_state admin rid uid p)))
    (lookups_of admin rid uid p).
Proof.
  intros Hp Hrid. unfold staff_outcome. rewrite lookups_of_eq.
  destruct (doc_get admin rid) as [snap|] eqn:H1;
    [|by apply staff_doc_rejected].
  destruct (ds_data snap) as [data|] eqn:Hd.
  { destruct (staff_doc_found admin rid uid p Hp Hrid snap data H1 Hd) as [Hl Hy].
    split; [done|]. intros u Hu y ->%list_elem_of_singleton Hnb.
    apply list_elem_of_filter. split; [done|]. apply Hy. right. by destruct Hnb. }
  destruct (where_get admin F_id rid 1) as [A|] eqn:H2;
    [|by apply (staff_id_search_rejected admin rid uid p Hp Hrid snap)].
  destruct (where_get admin F_userId rid 1) as [B|] eqn:H3.
  - destruct (staff_searched admin rid uid p Hp Hrid snap A B H1 Hd H2 H3) as [Hl Hy].
    split_and!; [|done|].
    + apply kept_final. intros y ?%elem_of_take_1. apply Hy. tauto.
    + intros B' [= <-]. apply kept_final. intros y ?%elem_of_take_1. apply Hy. tauto.
  - destruct (staff_userId_search_rejected admin rid uid p Hp Hrid snap A H1 Hd H2 H3)
      as [Hl Hy].
    split_and!; [|done|].
    + apply kept_final. intros y ?%elem_of_take_1. apply Hy. tauto.
    + intros B' [=].
Qed.

(** *** C5 *)

(** C5, as stated, fails. A patient reads their own data ("U1"), the store
    holds a chart "C2" whose userId is "U1", and only the first lookup of
    strategy 2 (the search on field [id]) rejects: the search on [userId]
    and the fetch by id are then not attempted, and "C2", which the search
    on [userId] finds when nothing rejects, is missing from the result. *)
Lemma C5_rejected_lookup_aborts_its_strategy :
  lookups_of (store [chart "C2" None (Some "U1") None]
                    (λ q, bool_decide (q = Where F_id "U1" 5)))
             "U1" "U1" (with_role "patient")
    = [Where F_id "U1" 5] ∧
  resolvePatientIds (store [chart "C2" None (Some "U1") None]
                           (λ q, bool_decide (q = Where F_id "U1" 5)))
                    "U1" "U1" (with_role "patient")
    = Some ["U1"] ∧
  resolvePatientIds (store [chart "C2" None (Some "U1") None] no_faults)
                    "U1" "U1" (with_role "patient")
    = Some ["U1"; "C2"].
Proof. by vm_compute. Qed.

(** C5, amended: the lookups are error-wrapped per strategy, one handler
    around each of steps 6, 7 and 8. For every input and every outcome of
    the lookups, resolve returns an array that holds the non-blank ids of
    the inputs; a rejected lookup ends its own strategy, so that the lookups
    after it in that strategy are not issued, and the non-blank ids found by
    the lookups that resolved before it are in the array. *)
Theorem C5_one_handler_per_strategy admin rid uid p :
  ∃ ids, resolvePatientIds admin rid uid p = Some ids ∧
    kept (input_ids rid uid p) ids ∧
    (isPatient_of p = true → uid = rid →
       self_outcome admin rid ids (lookups_of admin rid uid p)) ∧
    (isPatient_of p = true → uid ≠ rid → rid ≠ "" →
       other_outcome admin rid uid ids (lookups_of admin rid uid p)) ∧
    (isPatient_of p = false → rid ≠ "" →
       staff_outcome admin rid ids (lookups_of admin rid uid p)).
Proof.
  eexists. split; [apply resolvePatientIds_eq|]. split_and!.
  - apply kept_input_ids.
  - intros Hp ->. by apply self_outcome_holds.
  - intros. by apply other_outcome_holds.
  - intros. by apply staff_outcome_holds.
Qed.

Lemma C5_witness :
  ∃ ids,
    resolvePatientIds (store [chart "C2" (Some "U1") None None]
                             (λ q, bool_decide (q = Where F_userId "U1" 5)))
                      "U1" "U1" (with_role "patient") = Some ids ∧
    "C2" ∈ ids ∧
    lookups_of (store [chart "C2" (Some "U1") None None]
                      (λ q, bool_decide (q = Where F_userId "U1" 5)))
               "U1" "U1" (with_role "patient")
      = [Where F_id "U1" 5; Where F_userId "U1" 5].
Proof.
  destruct (C5_one_handler_per_strategy
              (store [chart "C2" (Some "U1") None None]
                     (λ q, bool_decide (q = Where F_userId "U1" 5)))
              "U1" "U1" (with_role "patient")) as (ids & Hr & _ & Hself & _).
  exists ids. split; [done|].
  specialize (Hself eq_refl eq_refl). unfold self_outcome in Hself. simpl in Hself.
  destruct Hself as [Hk Hq]. split; [|done].
  apply Hk; [by apply list_elem_of_singleton | by vm_compute].
Defined.

(** ** The chart store *)

Lemma store_where_ok st fails f v n :
  fails (Where f v n) = false →
  where_get (store st fails) f v n = Some (run_where st f v n).
Proof. simpl. by intros ->. Qed.

Lemma store_doc_ok st fails id :
  fails (Doc id) = false → doc_get (store st fails) id = Some (run_doc st id).
Proof. simpl. by intros ->. Qed.

Lemma head_run_where_1 st f v : head (doc_ids (run_where st f v 1)) = first_match f v st.
Proof. unfold run_where, first_match, doc_ids. by destruct (filter (matches f v) st). Qed.

Lemma length_run_where st f v n : (List.length (run_where st f v n) ≤ n)%nat.
Proof. unfold run_where. rewrite length_take. lia. Qed.

Lemma elem_of_run_where st f v n d :
  d ∈ run_where st f v n → d ∈ st ∧ field_of f (qd_data d) = Some v.
Proof.
  unfold run_where. intros H%subseteq_take.
  apply list_elem_of_filter in H. tauto.
Qed.

(** *** C6 *)

(** C6, as stated, fails. In the scenario of the claim (a doctor asks for
    "U1", no chart is named "U1", the chart "C9" has userId "U1"), let the
    search on field [id] reject: the search on [userId] is then not made,
    and the result is ["U1"], without "C9". With the three lookups resolving
    the result is ["U1"; "C9"]. *)
Lemma C6_rejected_search_loses_chart :
  lookups_of (store [chart "C9" None (Some "U1") None]
                    (λ q, bool_decide (q = Where F_id "U1" 1)))
             "U1" "D7" (with_role "doctor")
    = [Doc "U1"; Where F_id "U1" 1] ∧
  resolvePatientIds (store [chart "C9" None (Some "U1") None]
                           (λ q, bool_decide (q = Where F_id "U1" 1)))
                    "U1" "D7" (with_role "doctor")
    = Some ["U1"] ∧
  resolvePatientIds (store [chart "C9" None (Some "U1") None] no_faults)
                    "U1" "D7" (with_role "doctor")
    = Some ["U1"; "C9"].
Proof. by vm_compute. Qed.

(** C6, amended: for a caller that is not a patient and a non-blank
    requestedId, by what each lookup returns, on every connection to the
    chart store. The first lookup is the fetch of the document named
    requestedId.
    - The fetch resolves to an existing document: no other lookup is made,
      and the result is the ids of the inputs and the document's userId.
    - The fetch resolves to no document and the two searches (limit 1, on
      field [id] and on field [userId]) resolve: these are the three
      lookups, and the result also holds the document id of the first chart
      each search returns.
    - The fetch rejects, or the search on [id] rejects: the lookups stop
      there and the result is the ids of the inputs.
    - The search on [userId] rejects: the result holds the ids of the
      inputs and the first chart of the search on [id].
    On the chart-store model this reads, for a store that holds a document
    named requestedId and a fetch that resolves, and for a store that holds
    none and three lookups that resolve, as the two cases of the claim. For
    a doctor asking for "U1", with no chart named "U1", a chart "C9" whose
    userId is "U1" and every lookup resolving, the result is ["U1"; "C9"]. *)
Theorem C6_staff_lookups :
  (∀ admin rid uid p,
     isPatient_of p = false → nonblank rid →
     ∃ ids, resolvePatientIds admin rid uid p = Some ids ∧
       head (lookups_of admin rid uid p) = Some (Doc rid) ∧
       (∀ snap data,
          doc_get admin rid = Some snap → ds_data snap = Some data →
          lookups_of admin rid uid p = [Doc rid] ∧
          ∀ y, y ∈ ids ↔
               nonblank y ∧ (y ∈ input_ids rid uid p ∨ f_userId data = Some y)) ∧
       (∀ snap A B,
          doc_get admin rid = Some snap → ds_data snap = None →
          where_get admin F_id rid 1 = Some A →
          where_get admin F_userId rid 1 = Some B →
          lookups_of admin rid uid p
            = [Doc rid; Where F_id rid 1; Where F_userId rid 1] ∧
          ∀ y, y ∈ ids ↔
               nonblank y ∧ (y ∈ input_ids rid uid p ∨
                             head (doc_ids A) = Some y ∨ head (doc_ids B) = Some y)) ∧
       (doc_get admin rid = None →
          lookups_of admin rid uid p = [Doc rid] ∧
          ∀ y, y ∈ ids ↔ nonblank y ∧ y ∈ input_ids rid uid p) ∧
       (∀ snap,
          doc_get admin rid = Some snap → ds_data snap = None →
          where_get admin F_id rid 1 = None →
          lookups_of admin rid uid p = [Doc rid; Where F_id rid 1] ∧
          ∀ y, y ∈ ids ↔ nonblank y ∧ y ∈ input_ids rid uid p) ∧
       (∀ snap A,
          doc_get admin rid = Some snap → ds_data snap = None →
          where_get admin F_id rid 1 = Some A →
          where_get admin F_userId rid 1 = None →
          lookups_of admin rid uid p
            = [Doc rid; Where F_id rid 1; Where F_userId rid 1] ∧
          ∀ y, y ∈ ids ↔
               nonblank y ∧ (y ∈ input_ids rid uid p ∨ head (doc_ids A) = Some y))) ∧
  (∀ st fails rid uid p data,
     isPatient_of p = false → nonblank rid →
     fails (Doc rid) = false →
     find_doc st rid = Some data →
     ∃ ids, resolvePatientIds (store st fails) rid uid p = Some ids ∧
            lookups_of (store st fails) rid uid p = [Doc rid] ∧
            ∀ y, y ∈ ids ↔
                 nonblank y ∧ (y ∈ input_ids rid uid p ∨ f_userId data = Some y)) ∧
  (∀ st fails rid uid p,
     isPatient_of p = false → nonblank rid →
     fails (Doc rid) = false →
     fails (Where F_id rid 1) = false →
     fails (Where F_userId rid 1) = false →
     find_doc st rid = None →
     ∃ ids, resolvePatientIds (store st fails) rid uid p = Some ids ∧
            lookups_of (store st fails) rid uid p
              = [Doc rid; Where F_id rid 1; Where F_userId rid 1] ∧
            ∀ y, y ∈ ids ↔
                 nonblank y ∧ (y ∈ input_ids rid uid p ∨
                               first_match F_id rid st = Some y ∨
                               first_match F_userId rid st = Some y)) ∧
  (∀ uid,
     resolvePatientIds (store [chart "C9" None (Some "U1") None] no_faults)
                       "U1" uid (with_role "doctor") = Some ["U1"; "C9"]).
Proof.
  assert (Hin : ∀ rid uid p y (Q : Prop),
            (nonblank y ∧ (y ∈ patientIds (seed_state rid uid p) ∨ Q)) ↔
            (nonblank y ∧ (y ∈ input_ids rid uid p ∨ Q))).
  { intros rid uid p y Q. split; intros [Hnb H]; (split; [done|]).
    - rewrite input_ids_seed by done. tauto.
    - rewrite input_ids_seed in H by done. tauto. }
  assert (Hin0 : ∀ rid uid p y,
            (nonblank y ∧ y ∈ patientIds (seed_state rid uid p)) ↔
            (nonblank y ∧ y ∈ input_ids rid uid p)).
  { intros rid uid p y. split; intros [Hnb H]; (split; [done|]).
    - by rewrite input_ids_seed.
    - by rewrite input_ids_seed in H. }
  split_and!.
  - intros admin rid uid p Hp [Hrid _].
    eexists. split; [apply resolvePatientIds_eq|]. rewrite lookups_of_eq. split_and!.
    + pose proof (staff_outcome_holds admin rid uid p Hp Hrid) as H.
      unfold staff_outcome in H. rewrite lookups_of_eq in H.
      destruct (doc_get admin rid) as [snap|]; [|by rewrite H].
      destruct (ds_data snap); [destruct H as [-> _]; done|].
      destruct (where_get admin F_id rid 1); [|by rewrite H].
      destruct H as (_ & -> & _). done.
    + intros snap data H1 Hd.
      destruct (staff_doc_found admin rid uid p Hp Hrid snap data H1 Hd) as [Hl Hy].
      split; [done|]. intros y. rewrite list_elem_of_filter, Hy, <- Hin.
      split; intros [Hnb H]; (split; [done|]); [tauto|].
      destruct Hnb. tauto.
    + intros snap A B H1 Hd H2 H3.
      destruct (staff_searched admin rid uid p Hp Hrid snap A B H1 Hd H2 H3) as [Hl Hy].
      split; [done|]. intros y. by rewrite list_elem_of_filter, Hy, <- Hin.
    + intros H1.
      destruct (staff_doc_rejected admin rid uid p Hp Hrid H1) as [Hl Hy].
      split; [done|]. intros y. by rewrite list_elem_of_filter, Hy, <- Hin0.
    + intros snap H1 Hd H2.
      destruct (staff_id_search_rejected admin rid uid p Hp Hrid snap H1 Hd H2) as [Hl Hy].
      split; [done|]. intros y. by rewrite list_elem_of_filter, Hy, <- Hin0.
    + intros snap A H1 Hd H2 H3.
      destruct (staff_userId_search_rejected admin rid uid p Hp Hrid snap A H1 Hd H2 H3)
        as [Hl Hy].
      split; [done|]. intros y. by rewrite list_elem_of_filter, Hy, <- Hin.
  - intros st fails rid uid p data Hp [Hrid _] Hf Hd.
    eexists. split; [apply resolvePatientIds_eq|]. rewrite lookups_of_eq.
    destruct (staff_doc_found (store st fails) rid uid p Hp Hrid (run_doc st rid) data)
      as [Hl Hy]; [by apply store_doc_ok | done |].
    split; [done|]. intros y. rewrite list_elem_of_filter, Hy.
    split; intros [Hnb H]; (split; [done|]).
    + rewrite input_ids_seed by done. tauto.
    + rewrite input_ids_seed in H by done. destruct Hnb. tauto.
  - intros st fails rid uid p Hp [Hrid _] Hf H1 H2 Hd.
    eexists. split; [apply resolvePatientIds_eq|]. rewrite lookups_of_eq.
    destruct (staff_searched (store st fails) rid uid p Hp Hrid (run_doc st rid)
                (run_where st F_id rid 1) (run_where st F_userId rid 1))
      as [Hl Hy]; [by apply store_doc_ok | done | by apply store_where_ok..|].
    split; [done|]. intros y. rewrite list_elem_of_filter, Hy, !head_run_where_1.
    split; intros [Hnb H]; (split; [done|]).
    + rewrite input_ids_seed by done. tauto.
    + rewrite input_ids_seed in H by done. tauto.
  - intros uid. by vm_compute.
Qed.

Lemma C6_witness :
  ∃ ids,
    resolvePatientIds (store [chart "C9" None (Some "U1") None] no_faults)
                      "U1" "D7" (with_role "doctor") = Some ids ∧
    lookups_of (store [chart "C9" None (Some "U1") None] no_faults)
               "U1" "D7" (with_role "doctor")
      = [Doc "U1"; Where F_id "U1" 1; Where F_userId "U1" 1] ∧
    "C9" ∈ ids.
Proof.
  destruct C6_staff_lookups as (Hany & _).
  destruct (Hany (store [chart "C9" None (Some "U1") None] no_faults) "U1" "D7"
              (with_role "doctor")) as (ids & Hr & _ & _ & Hsearch & _);
    [done | by vm_compute |].
  destruct (Hsearch (run_doc [chart "C9" None (Some "U1") None] "U1")
              (run_where [chart "C9" None (Some "U1") None] F_id "U1" 1)
              (run_where [chart "C9" None (Some "U1") None] F_userId "U1" 1))
    as [Hl Hy]; [done..|].
  exists ids. split_and!; [done..|]. apply Hy. split; [by vm_compute|].
  right. right. done.
Defined.

(** *** C7 *)

(** C7: a patient caller asks for a (non-empty) id that is not their own
    UID. The first lookup of the call is the fetch of the chart named
    requestedId, whatever the store does; if the fetch resolves to an
    existing chart whose userId is a non-blank string, that userId is in the
    result, whether the later lookups resolve or reject. For the patient
    "U1" asking for "C1", with the single chart "C1" whose userId is "U1",
    the result is ["C1"; "U1"]. *)
Theorem C7_patient_requests_chart_id :
  (∀ admin rid uid p,
     isPatient_of p = true → uid ≠ rid → rid ≠ "" →
     head (lookups_of admin rid uid p) = Some (Doc rid) ∧
     ∃ ids, resolvePatientIds admin rid uid p = Some ids ∧
            ∀ snap data u,
              doc_get admin rid = Some snap → ds_data snap = Some data →
              f_userId data = Some u → nonblank u → u ∈ ids) ∧
  resolvePatientIds (store [chart "C1" None (Some "U1") None] no_faults)
                    "C1" "U1" (with_role "patient") = Some ["C1"; "U1"] ∧
  lookups_of (store [chart "C1" None (Some "U1") None] no_faults)
             "C1" "U1" (with_role "patient")
    = [Doc "C1"; Where F_id "U1" 5; Where F_userId "U1" 5].
Proof.
  split; [|by vm_compute].
  intros admin rid uid p Hp Hne Hrid.
  pose proof (other_outcome_holds admin rid uid p Hp Hne Hrid) as H.
  unfold other_outcome in H. split.
  - destruct (doc_get admin rid) as [snap|]; [|by rewrite H].
    destruct H as [_ H]. case_decide; [by rewrite H|].
    destruct (where_get admin F_id uid 5); [|by rewrite H].
    destruct H as (_ & -> & _). done.
  - eexists. split; [apply resolvePatientIds_eq|].
    intros snap data u Hs Hd Hu Hnb. rewrite Hs in H. destruct H as [H _].
    apply (H u); [|by apply list_elem_of_singleton | done].
    exists data. by destruct Hnb.
Qed.

Lemma C7_witness :
  head (lookups_of (store [] (λ _, true)) "C1" "U1" (with_role "patient"))
    = Some (Doc "C1").
Proof.
  destruct C7_patient_requests_chart_id as [H _].
  by apply (H (store [] (λ _, true)) "C1" "U1" (with_role "patient")).
Defined.

(** ** The cache *)

(** The loop of deletions, on any list of entries and any map: it never
    adds an entry, deletes the expired entries of the list, and leaves the
    keys alone under which the list has no expired entry. *)
Lemma sweep_loop_absent now (l : list (string * CacheEntry))
    (acc : gmap string CacheEntry) k :
  acc !! k = None →
  foldl (λ a kv, sweep_step now kv a) acc l !! k = None.
Proof.
  revert acc. induction l as [|[k' e'] r IH]; intros acc Hk; simpl; [done|].
  apply IH. unfold sweep_step. simpl. case_decide; [|done].
  rewrite lookup_delete. by case_decide.
Qed.

Lemma sweep_loop_expired now (l : list (string * CacheEntry))
    (acc : gmap string CacheEntry) k e :
  (k, e) ∈ l → CacheSpec.expired now e →
  foldl (λ a kv, sweep_step now kv a) acc l !! k = None.
Proof.
  unfold CacheSpec.expired. revert acc.
  induction l as [|[k' e'] r IH]; intros acc Hin He; simpl.
  - by apply elem_of_nil in Hin.
  - apply elem_of_cons in Hin as [[= <- <-]|Hin]; [|by apply IH].
    apply sweep_loop_absent. unfold sweep_step. simpl.
    rewrite decide_True by done. apply lookup_delete_eq.
Qed.

Lemma sweep_loop_kept now (l : list (string * CacheEntry))
    (acc : gmap string CacheEntry) k :
  (∀ e, (k, e) ∈ l → ¬ CacheSpec.expired now e) →
  foldl (λ a kv, sweep_step now kv a) acc l !! k = acc !! k.
Proof.
  unfold CacheSpec.expired. revert acc.
  induction l as [|[k' e'] r IH]; intros acc Hall; simpl; [done|].
  rewrite IH by (intros e ?; apply Hall; by right).
  unfold sweep_step. simpl. case_decide as He; [|done].
  rewrite lookup_delete. case_decide as Hk; [|done].
  subst. exfalso. apply (Hall e'); [by left | done].
Qed.

(** The sweep keeps exactly the entries that are not expired. *)
Lemma sweep_filter now (cache : gmap string CacheEntry) :
  sweep now cache = filter (λ kv, ¬ CacheSpec.expired now kv.2) cache.
Proof.
  apply map_eq. intros k. unfold sweep. rewrite map_lookup_filter.
  destruct (cache !! k) as [e|] eqn:E.
  - destruct (decide (CacheSpec.expired now e)) as [He|He].
    + rewrite (sweep_loop_expired now _ _ k e); [|by apply elem_of_map_to_list | done].
      simpl. by rewrite option_guard_False by tauto.
    + rewrite sweep_loop_kept, E; [simpl; by rewrite option_guard_True|].
      intros e' He'%elem_of_map_to_list. congruence.
  - by apply sweep_loop_absent.
Qed.

Lemma cleanup_evict now (cache : gmap string CacheEntry) :
  cleanup now cache = CacheSpec.evict now cache.
Proof.
  unfold cleanup, CacheSpec.evict. rewrite sweep_filter.
  repeat case_decide; (done || lia).
Qed.

Lemma evict_lookup now (cache : gmap string CacheEntry) k e :
  CacheSpec.evict now cache !! k = Some e ↔
    cache !! k = Some e ∧ ((1000 < size cache)%nat → ¬ CacheSpec.expired now e).
Proof.
  unfold CacheSpec.evict. case_decide as Hs.
  - split; [|tauto]. intros ?. split; [done|lia].
  - rewrite map_lookup_filter_Some. simpl. split; intros [? H]; (split; [done|]).
    + done.
    + apply H. lia.
Qed.

(** A call that does not find a fresh entry runs the resolver and stores. *)
Lemma cached_miss admin clock (cache : gmap string CacheEntry) rid uid p :
  (∀ e, cache !! cacheKey uid rid = Some e → ¬ CacheSpec.fresh (now_check clock) e) →
  resolvePatientIdsCached admin clock cache rid uid p =
    {| returned := resolvePatientIds admin rid uid p;
       issued := lookups_of admin rid uid p;
       cache_after :=
         CacheSpec.evict (now_sweep clock)
           (<[cacheKey uid rid :=
                {| ids := filter nonblank (patientIds (final_state admin rid uid p));
                   timestamp := now_store clock |}]> cache) |}.
Proof.
  intros Hmiss. unfold resolvePatientIdsCached.
  rewrite resolvePatientIds_eq, lookups_of_eq, run_resolve_eq.
  cbv zeta. cbn [fst snd]. rewrite cleanup_evict.
  destruct (cache !! cacheKey uid rid) as [e|] eqn:E; [|done].
  rewrite decide_False; [done|]. by apply Hmiss.
Qed.

Lemma cached_hit admin clock (cache : gmap string CacheEntry) rid uid p e :
  cache !! cacheKey uid rid = Some e →
  CacheSpec.fresh (now_check clock) e →
  resolvePatientIdsCached admin clock cache rid uid p =
    {| returned := Some (ids e); issued := []; cache_after := cache |}.
Proof.
  intros E Hf. unfold resolvePatientIdsCached. rewrite E. by rewrite decide_True.
Qed.

(** *** C8 *)

(** C8: the cached resolver does what the specification of the cache says,
    and nothing else. A call that finds an entry under the key built from
    (userUid, requestedId) whose age is below the TTL returns the cached
    array, issues no lookup and leaves the cache as it is; any other call
    runs the resolver, returns exactly its result and stores it under the
    key with the time of the store. Hence a call that follows a miss within
    the TTL (on a clock that does not run backwards) returns the same array
    without any lookup: the two calls make one round of lookups. *)
Theorem C8_cached_resolver_refines_spec :
  (∀ admin clock (cache : gmap string CacheEntry) rid uid p r,
     CacheSpec.step admin clock cache rid uid p r ↔
     r = resolvePatientIdsCached admin clock cache rid uid p) ∧
  (∀ admin admin' clock clock' (cache : gmap string CacheEntry) rid uid p p',
     (∀ e, cache !! cacheKey uid rid = Some e → ¬ CacheSpec.fresh (now_check clock) e) →
     now_sweep clock ≤ now_check clock' →
     now_check clock' - now_store clock < CACHE_TTL →
     returned (resolvePatientIdsCached admin' clock'
                 (cache_after (resolvePatientIdsCached admin clock cache rid uid p))
                 rid uid p')
       = resolvePatientIds admin rid uid p ∧
     returned (resolvePatientIdsCached admin clock cache rid uid p)
       = resolvePatientIds admin rid uid p ∧
     issued (resolvePatientIdsCached admin clock cache rid uid p)
       = lookups_of admin rid uid p ∧
     issued (resolvePatientIdsCached admin' clock'
               (cache_after (resolvePatientIdsCached admin clock cache rid uid p))
               rid uid p')
       = []).
Proof.
  split.
  - intros admin clock cache rid uid p r. split.
    + intros [e He Hf|resolved Hmiss Hr].
      * by rewrite (cached_hit _ _ _ _ _ _ e).
      * rewrite cached_miss by done. rewrite Hr.
        rewrite resolvePatientIds_eq in Hr. by injection Hr as <-.
    + intros ->. destruct (cache !! cacheKey uid rid) as [e|] eqn:E.
      * destruct (decide (CacheSpec.fresh (now_check clock) e)) as [Hf|Hf].
        -- rewrite (cached_hit _ _ _ _ _ _ e) by done. by apply CacheSpec.hit.
        -- assert (Hmiss : ∀ e', cache !! cacheKey uid rid = Some e' →
                                 ¬ CacheSpec.fresh (now_check clock) e').
           { intros e' He'. by replace e' with e by congruence. }
           rewrite cached_miss by done. rewrite resolvePatientIds_eq.
           apply CacheSpec.miss; [done | apply resolvePatientIds_eq].
      * assert (Hmiss : ∀ e', cache !! cacheKey uid rid = Some e' →
                              ¬ CacheSpec.fresh (now_check clock) e').
        { intros e' He'. congruence. }
        rewrite cached_miss by done. rewrite resolvePatientIds_eq.
        apply CacheSpec.miss; [done | apply resolvePatientIds_eq].
  - intros admin admin' clock clock' cache rid uid p p' Hmiss Hmono Hwithin.
    rewrite (cached_miss admin) by done. simpl.
    rewrite (cached_hit admin' clock' _ rid uid p'
               {| ids := filter nonblank (patientIds (final_state admin rid uid p));
                  timestamp := now_store clock |}).
    + simpl. by rewrite resolvePatientIds_eq.
    + apply evict_lookup. split; [apply lookup_insert_eq|].
      intros _. unfold CacheSpec.expired. simpl. lia.
    + unfold CacheSpec.fresh. simpl. lia.
Qed.

Lemma C8_witness :
  issued (resolvePatientIdsCached (store [] no_faults)
            {| now_check := 2000; now_store := 2000; now_sweep := 2000 |}
            (cache_after
               (resolvePatientIdsCached (store [chart "C9" None (Some "U1") None] no_faults)
                  {| now_check := 1000; now_store := 1000; now_sweep := 1000 |}
                  ∅ "U1" "D7" (with_role "doctor")))
            "U1" "D7" (with_role "doctor")) = [] ∧
  returned (resolvePatientIdsCached (store [] no_faults)
            {| now_check := 2000; now_store := 2000; now_sweep := 2000 |}
            (cache_after
               (resolvePatientIdsCached (store [chart "C9" None (Some "U1") None] no_faults)
                  {| now_check := 1000; now_store := 1000; now_sweep := 1000 |}
                  ∅ "U1" "D7" (with_role "doctor")))
            "U1" "D7" (with_role "doctor")) = Some ["U1"; "C9"].
Proof.
  destruct C8_cached_resolver_refines_spec as [_ H].
  destruct (H (store [chart "C9" None (Some "U1") None] no_faults) (store [] no_faults)
              {| now_check := 1000; now_store := 1000; now_sweep := 1000 |}
              {| now_check := 2000; now_store := 2000; now_sweep := 2000 |}
              ∅ "U1" "D7" (with_role "doctor") (with_role "doctor"))
    as (Hr & _ & _ & Hi).
  - intros e. by rewrite lookup_empty.
  - simpl. lia.
  - by vm_compute.
  - split; [done|]. rewrite Hr. by vm_compute.
Defined.

(** *** C9 *)

(** C9: a call that stores (any call that does not find a fresh entry)
    sweeps after the store exactly when the Map then holds more than 1000
    entries. The sweep deletes the entries whose age, at the time of the
    sweep, exceeds the TTL and keeps the others: right after it no entry of
    the cache is older than the TTL. With at most 1000 entries nothing is
    evicted: the cache is the old one with the new entry stored. *)
Theorem C9_sweep_after_store admin clock (cache : gmap string CacheEntry) rid uid p :
  (∀ e, cache !! cacheKey uid rid = Some e →
        ¬ (now_check clock - timestamp e < CACHE_TTL)) →
  ∃ resolved,
    resolvePatientIds admin rid uid p = Some resolved ∧
    ((1000 < size (<[cacheKey uid rid :=
                       {| ids := resolved; timestamp := now_store clock |}]> cache))%nat →
       (∀ k e,
          cache_after (resolvePatientIdsCached admin clock cache rid uid p) !! k = Some e ↔
          <[cacheKey uid rid :=
              {| ids := resolved; timestamp := now_store clock |}]> cache !! k = Some e ∧
          ¬ (now_sweep clock - timestamp e > CACHE_TTL)) ∧
       (∀ k e,
          cache_after (resolvePatientIdsCached admin clock cache rid uid p) !! k = Some e →
          now_sweep clock - timestamp e ≤ CACHE_TTL)) ∧
    ((size (<[cacheKey uid rid :=
                {| ids := resolved; timestamp := now_store clock |}]> cache) ≤ 1000)%nat →
       cache_after (resolvePatientIdsCached admin clock cache rid uid p)
         = <[cacheKey uid rid :=
               {| ids := resolved; timestamp := now_store clock |}]> cache).
Proof.
  intros Hmiss. eexists. split; [apply resolvePatientIds_eq|].
  rewrite cached_miss by done. simpl. split.
  - intros Hsize.
    assert (Hiff : ∀ k e,
      CacheSpec.evict (now_sweep clock)
        (<[cacheKey uid rid :=
             {| ids := filter nonblank (patientIds (final_state admin rid uid p));
                timestamp := now_store clock |}]> cache) !! k = Some e ↔
      <[cacheKey uid rid :=
          {| ids := filter nonblank (patientIds (final_state admin rid uid p));
             timestamp := now_store clock |}]> cache !! k = Some e ∧
      ¬ (now_sweep clock - timestamp e > CACHE_TTL)).
    { intros k e. rewrite evict_lookup. unfold CacheSpec.expired. tauto. }
    split; [done|]. intros k e [_ H]%Hiff. lia.
  - intros Hsize. unfold CacheSpec.evict. by rewrite decide_True.
Qed.

Lemma C9_witness :
  cache_after (resolvePatientIdsCached (store [] no_faults)
     {| now_check := 400000; now_store := 400000; now_sweep := 400001 |}
     (stale_cache 1001) "U1" "U1" (with_role "patient")) !! "7" = None.
Proof.
  destruct (C9_sweep_after_store (store [] no_faults)
              {| now_check := 400000; now_store := 400000; now_sweep := 400001 |}
              (stale_cache 1001) "U1" "U1" (with_role "patient"))
    as (resolved & Hr & Hbig & _).
  - intros e He. vm_compute in He. discriminate.
  - vm_compute in Hr. injection Hr as <-.
    destruct Hbig as [Hiff _].
    { apply Nat.ltb_lt. by vm_compute. }
    match goal with |- ?o = None => destruct o as [e|] eqn:E end; [|done].
    apply Hiff in E as [E Hage]. vm_compute in E. injection E as <-.
    exfalso. apply Hage. by vm_compute.
Defined.

(** ** The role test *)

Lemma lower_char_ascii c :
  (N_of_ascii (JS.lower_char c) <? 128)%N || (N_of_ascii (ascii_lower c) <? 128)%N = true →
  JS.lower_char c = ascii_lower c.
Proof. destruct c as [[] [] [] [] [] [] [] []]; vm_compute; intros; done. Qed.

Lemma lower_char_iff c x :
  (N_of_ascii x <? 128)%N = true → JS.lower_char c = x ↔ ascii_lower c = x.
Proof.
  intros Hx. split; intros H; subst x.
  - symmetry. apply lower_char_ascii. by rewrite Hx.
  - apply lower_char_ascii. by rewrite Hx, orb_true_r.
Qed.

Lemma toLowerCase_ascii s t :
  ascii_only t = true → JS.toLowerCase s = t ↔ fold_case s = t.
Proof.
  revert t. induction s as [|c r IH]; intros [|x t]; simpl; try done.
  intros [Hx Ht]%andb_true_iff.
  split; intros [= Hc Hr]; f_equal;
    first [by apply (lower_char_iff c x) | by apply (IH t)].
Qed.

Lemma isPatient_of_set_role r p :
  isPatient_of (set_role r p) =
    match r with
    | Some v => bool_decide (JS.toLowerCase (JS.toString v) = "patient")
    | None => false
    end.
Proof. done. Qed.

(** The role is read by the test only: the rest of a call sees the linked
    patient id, and nothing else of the profile. *)
Lemma run_resolve_role admin rid uid p p' :
  isPatient_of p' = isPatient_of p →
  p' ≫= patientId = p ≫= patientId →
  run_resolve admin rid uid p' = run_resolve admin rid uid p.
Proof.
  intros H1 H2. rewrite !run_resolve_eq.
  unfold active_strategy, seed_state, seeds, strategy1. by rewrite H1, H2.
Qed.

(** *** C10 *)

(** C10: the caller is a patient caller exactly when the profile has a role
    whose string form equals 'patient' up to the case of its letters,
    whatever the type of the role value ('Patient', 'PATIENT', the array
    ['Patient'], ...). Such a call runs as the call with role 'patient'
    does: the caller's non-blank UID is in the result and the limit-1
    searches of the staff strategy are never issued. With a missing role or
    any other role the call runs as a call without role does, and issues
    only the lookups of the staff strategy. *)
Theorem C10_role_test_ignores_case_and_type :
  (∀ p, isPatient_of p = true ↔
        ∃ v, p ≫= role = Some v ∧ eq_ignore_case (JS.toString v) "patient") ∧
  (∀ admin rid uid p,
     isPatient_of p = true →
     run_resolve admin rid uid p
       = run_resolve admin rid uid (set_role (Some (JS.VStr "patient")) p) ∧
     Forall (λ q, ∀ f v, q ≠ Where f v 1) (lookups_of admin rid uid p) ∧
     ∃ ids, resolvePatientIds admin rid uid p = Some ids ∧ (nonblank uid → uid ∈ ids)) ∧
  (∀ admin rid uid p,
     isPatient_of p = false →
     run_resolve admin rid uid p = run_resolve admin rid uid (set_role None p) ∧
     Forall (λ q, q = Doc rid ∨ q = Where F_id rid 1 ∨ q = Where F_userId rid 1)
            (lookups_of admin rid uid p)) ∧
  isPatient_of (with_role "Patient") = true ∧
  isPatient_of (with_role "PATIENT") = true ∧
  isPatient_of (Some {| role := Some (JS.VArr [JS.VStr "Patient"]);
                        patientId := None; phone := None |}) = true ∧
  isPatient_of None = false ∧
  isPatient_of (Some {| role := None; patientId := None; phone := None |}) = false ∧
  isPatient_of (with_role "doctor") = false.
Proof.
  split_and!; [| | |by vm_compute..].
  - intros p. unfold isPatient_of, eq_ignore_case.
    destruct (p ≫= role) as [v|].
    + rewrite bool_decide_eq_true, (toLowerCase_ascii _ "patient") by done.
      change (fold_case "patient") with "patient". split.
      * intros H. by exists v.
      * by intros (? & [= <-] & ?).
    + split; [done|]. by intros (? & [=] & _).
  - intros admin rid uid p Hp. split_and!.
    + symmetry. apply run_resolve_role; [by rewrite isPatient_of_set_role | done].
    + eapply Forall_impl; [by apply patient_lookups|]. simpl.
      intros q [->|(f & v & -> & _)] f' v'; done.
    + eexists. split; [apply resolvePatientIds_eq|]. intros Hnb.
      eapply seed_resolved; [apply resolvePatientIds_eq | | done].
      apply seed_state_ids. right. left. by destruct Hnb.
  - intros admin rid uid p Hp. split.
    + symmetry. apply run_resolve_role; [by rewrite isPatient_of_set_role | done].
    + by apply staff_lookups.
Qed.

Lemma C10_witness :
  Forall (λ q, ∀ f v, q ≠ Where f v 1)
         (lookups_of (store [] no_faults) "U1" "U1" (with_role "PaTiEnT")).
Proof.
  destruct C10_role_test_ignores_case_and_type as (_ & H & _).
  by apply (H (store [] no_faults) "U1" "U1" (with_role "PaTiEnT")).
Defined.

(** * Further properties of the resolver *)

(** ** The result is a set *)

Lemma NoDup_set_add x l : NoDup l → NoDup (set_add x l).
Proof.
  unfold set_add. case_decide as Hx; [done|]. intros Hl.
  apply NoDup_app. split_and!; [done | | apply NoDup_singleton].
  intros y Hy ->%list_elem_of_singleton. done.
Qed.

Lemma preserves_ret {A} I (a : A) : preserves I (ret a).
Proof. by intros s o s' H [= <- <-]. Qed.

Lemma preserves_bind {A B} I (m : M A) (k : A → M B) :
  preserves I m → (∀ a, preserves I (k a)) → preserves I (bind m k).
Proof.
  intros Hm Hk s o s' HI. unfold bind. destruct (m s) as [[a|] s1] eqn:E.
  - intros H. eapply Hk; [|done]. by eapply Hm.
  - intros [= <- <-]. by eapply Hm.
Qed.

Lemma preserves_add I x :
  (∀ l, I l → I (set_add x l)) → preserves I (add x).
Proof. intros HI s o s' H [= <- <-]. simpl. by apply HI. Qed.

Lemma preserves_if {A} I (b : bool) (m1 m2 : M A) :
  preserves I m1 → preserves I m2 → preserves I (if b then m1 else m2).
Proof. by destruct b. Qed.

Lemma preserves_try_catch I body msg : preserves I body → preserves I (try_catch body msg).
Proof.
  intros Hb s o s' HI. unfold try_catch.
  destruct (body s) as [[a|] s1] eqn:E; intros [= <- <-]; simpl; by eapply Hb.
Qed.

Lemma preserves_await_where I admin f v n : preserves I (await_where admin f v n).
Proof.
  intros s o s' HI. unfold await_where.
  by destruct (where_get admin f v n); intros [= <- <-].
Qed.

Lemma preserves_await_doc I admin id : preserves I (await_doc admin id).
Proof.
  intros s o s' HI. unfold await_doc.
  by destruct (doc_get admin id); intros [= <- <-].
Qed.

Lemma preserves_forEach_add I docs :
  (∀ x l, I l → I (set_add x l)) → preserves I (forEach_add docs).
Proof.
  intros HI. induction docs as [|d r IH]; simpl; [apply preserves_ret|].
  apply preserves_bind; [apply preserves_add, HI | done].
Qed.

Ltac solve_preserves HI :=
  repeat first
    [ apply preserves_try_catch
    | apply preserves_bind; [|intros ?]
    | apply preserves_await_where | apply preserves_await_doc
    | apply preserves_forEach_add; exact HI
    | apply preserves_add; apply HI
    | apply preserves_ret
    | apply preserves_if
    | match goal with |- preserves _ (match ?x with _ => _ end) => destruct x end ].

Lemma preserves_resolve_body I admin rid uid p :
  (∀ x l, I l → I (set_add x l)) →
  preserves I (resolve_body admin rid uid p).
Proof.
  intros HI. unfold resolve_body, strategy1, strategy1b, strategy2, strategy2c, strategy3,
    add_all, add_first, add_userId, skip, get_patientIds.
  solve_preserves HI.
  by intros s o s' H [= <- <-].
Qed.

Lemma NoDup_final_state admin rid uid p :
  NoDup (patientIds (final_state admin rid uid p)).
Proof.
  pose proof (run_resolve_eq admin rid uid p) as E. cbv zeta in E.
  unfold run_resolve in E. fold init in E.
  refine (preserves_resolve_body NoDup admin rid uid p _ init _ _ _ E).
  - intros x l. apply NoDup_set_add.
  - apply NoDup_nil_2.
Qed.

(** X1: the array a call returns never holds the same id twice. *)
Theorem resolved_NoDup admin rid uid p ids :
  resolvePatientIds admin rid uid p = Some ids → NoDup ids.
Proof.
  rewrite resolvePatientIds_eq. intros [= <-].
  apply NoDup_filter, NoDup_final_state.
Qed.

Lemma resolved_NoDup_witness :
  NoDup ["C1"; "U1"].
Proof.
  apply (resolved_NoDup (store [chart "C1" None (Some "U1") None] no_faults)
           "C1" "U1" (with_role "patient")).
  by vm_compute.
Defined.

(** ** A call stops at its first rejected lookup, and says so once *)

Lemma tracked_ret {A} admin (a : A) : tracked admin (ret a).
Proof.
  intros s o s' [= <- <-]. split; [done|]. exists []. split; [by rewrite app_nil_r|].
  by apply Forall_nil.
Qed.

Lemma tracked_add admin x : tracked admin (add x).
Proof.
  intros s o s' [= <- <-]. split; [done|]. exists []. split; [by rewrite app_nil_r|].
  by apply Forall_nil.
Qed.

Lemma tracked_bind {A B} admin (m : M A) (k : A → M B) :
  tracked admin m → (∀ a, tracked admin (k a)) → tracked admin (bind m k).
Proof.
  intros Hm Hk s o s'. unfold bind. destruct (m s) as [[a|] s1] eqn:E.
  - intros H. destruct (Hm _ _ _ E) as (C1 & q1 & L1 & D1).
    destruct (Hk _ _ _ _ H) as (C2 & q2 & L2 & D2).
    split; [congruence|]. exists (q1 ++ q2)%list.
    split; [by rewrite L2, L1, app_assoc|].
    simpl in D1. destruct o as [b|]; simpl in *.
    + by apply Forall_app.
    + destruct D2 as (qs' & q & -> & Hq & Hqs').
      exists (q1 ++ qs')%list, q. split_and!; [by rewrite app_assoc | done |].
      by apply Forall_app.
  - intros [= <- <-]. destruct (Hm _ _ _ E) as (C & qs & L & D).
    split; [done|]. exists qs. by split.
Qed.

Lemma tracked_if {A} admin (b : bool) (m1 m2 : M A) :
  tracked admin m1 → tracked admin m2 → tracked admin (if b then m1 else m2).
Proof. by destruct b. Qed.

Lemma tracked_forEach_add admin docs : tracked admin (forEach_add docs).
Proof.
  induction docs as [|d r IH]; simpl; [apply tracked_ret|].
  apply tracked_bind; [apply tracked_add | done].
Qed.

Lemma tracked_await_where admin f v n : tracked admin (await_where admin f v n).
Proof.
  intros s o s'. unfold await_where.
  destruct (where_get admin f v n) as [docs|] eqn:E; intros [= <- <-];
    (split; [done|]); exists [Where f v n]; (split; [done|]); simpl.
  - apply Forall_singleton. simpl. by rewrite E.
  - exists [], (Where f v n). split_and!; [done | done | apply Forall_nil_2].
Qed.

Lemma tracked_await_doc admin id : tracked admin (await_doc admin id).
Proof.
  intros s o s'. unfold await_doc.
  destruct (doc_get admin id) as [d|] eqn:E; intros [= <- <-];
    (split; [done|]); exists [Doc id]; (split; [done|]); simpl.
  - apply Forall_singleton. simpl. by rewrite E.
  - exists [], (Doc id). split_and!; [done | done | apply Forall_nil_2].
Qed.

Ltac solve_tracked :=
  unfold add_all, add_first, add_userId, skip;
  repeat first
    [ apply tracked_bind; [|intros ?]
    | apply tracked_await_where | apply tracked_await_doc
    | apply tracked_forEach_add | apply tracked_add | apply tracked_ret
    | apply tracked_if
    | match goal with |- tracked _ (match ?x with _ => _ end) => destruct x end ].

(** A handler around a tracked body logs its line exactly when the body
    threw. *)
Lemma try_catch_logged admin body msg s :
  tracked admin body →
  ∃ qs, lookups (try_catch body msg s).2 = (lookups s ++ qs)%list ∧
        ((console (try_catch body msg s).2 = console s ∧
          Forall (λ q, ¬ rejects admin q) qs) ∨
         (console (try_catch body msg s).2 = (console s ++ [msg])%list ∧
          ∃ qs' q, qs = (qs' ++ [q])%list ∧ rejects admin q ∧
                   Forall (λ q, ¬ rejects admin q) qs')).
Proof.
  intros Hb. unfold try_catch. destruct (body s) as [[a|] s1] eqn:E;
    destruct (Hb _ _ _ E) as (C & qs & L & D); exists qs; simpl in *.
  - split; [done|]. by left.
  - split; [done|]. right. by rewrite C.
Qed.

Lemma seed_state_console rid uid p : console (seed_state rid uid p) = [].
Proof.
  assert (H : ∀ s, console (seeds rid uid p s).2 = console s); [|apply H].
  intros s. unfold seeds. repeat (rewrite bind_catches by solve_catches).
  unfold strategy1. destruct (p ≫= patientId) as [pid|]; simpl;
    repeat (match goal with |- context [if ?b then _ else _] => destruct b end; simpl);
    done.
Qed.

(** X2: in every call, each lookup issued before the last one resolved;
    the call writes one [console.error] line when its last lookup rejected
    and none otherwise. *)
Theorem lookups_stop_at_first_rejection admin rid uid p :
  logged_outcome admin (console_of admin rid uid p) (lookups_of admin rid uid p).
Proof.
  unfold console_of, lookups_of. rewrite run_resolve_eq. cbv zeta. cbn [snd].
  assert (H : ∃ qs,
    lookups (active_strategy admin rid uid p (seed_state rid uid p)).2
      = (lookups (seed_state rid uid p) ++ qs)%list ∧
    ((console (active_strategy admin rid uid p (seed_state rid uid p)).2
        = console (seed_state rid uid p) ∧
      Forall (λ q, ¬ rejects admin q) qs) ∨
     (∃ msg, console (active_strategy admin rid uid p (seed_state rid uid p)).2
        = (console (seed_state rid uid p) ++ [msg])%list ∧
      ∃ qs' q, qs = (qs' ++ [q])%list ∧ rejects admin q ∧
               Forall (λ q, ¬ rejects admin q) qs'))).
  { assert (Hskip : ∀ s, ∃ qs, lookups (skip s).2 = (lookups s ++ qs)%list ∧
      ((console (skip s).2 = console s ∧ Forall (λ q, ¬ rejects admin q) qs) ∨
       (∃ msg, console (skip s).2 = (console s ++ [msg])%list ∧
        ∃ qs' q, qs = (qs' ++ [q])%list ∧ rejects admin q ∧
                 Forall (λ q, ¬ rejects admin q) qs'))).
    { intros s. exists []. simpl. split; [by rewrite app_nil_r|]. left. split; [done|].
      apply Forall_nil_2. }
    assert (Htc : ∀ body msg s, tracked admin body →
      ∃ qs, lookups (try_catch body msg s).2 = (lookups s ++ qs)%list ∧
      ((console (try_catch body msg s).2 = console s ∧
        Forall (λ q, ¬ rejects admin q) qs) ∨
       (∃ msg', console (try_catch body msg s).2 = (console s ++ [msg'])%list ∧
        ∃ qs' q, qs = (qs' ++ [q])%list ∧ rejects admin q ∧
                 Forall (λ q, ¬ rejects admin q) qs'))).
    { intros body msg s Hb. destruct (try_catch_logged admin body msg s Hb)
        as (qs & L & [D|D]); exists qs; (split; [done|]); [by left|].
      right. exists msg. done. }
    unfold active_strategy.
    destruct (isPatient_of p), (bool_decide (uid = rid)), (JS.truthy rid);
      first [ apply Hskip
            | unfold strategy2, strategy2c, strategy3; apply Htc; solve_tracked ]. }
  rewrite seed_state_lookups, seed_state_console in H.
  destruct H as (qs & -> & [[-> D]|(msg & -> & qs' & q & -> & R & D)]).
  - by left.
  - right. by exists msg, qs', q.
Qed.

(** ** How many lookups a call makes *)

Lemma final_state_idle admin rid uid p :
  (isPatient_of p = true → uid ≠ rid ∧ rid = "") →
  (isPatient_of p = false → rid = "") →
  final_state admin rid uid p = seed_state rid uid p.
Proof.
  intros Hpat Hstaff. unfold final_state, active_strategy.
  destruct (isPatient_of p).
  - destruct (Hpat eq_refl) as [Hne ->].
    by rewrite bool_decide_eq_false_2.
  - by rewrite (Hstaff eq_refl).
Qed.

(** X3: a call issues at most three lookups, whatever the store answers. *)
Theorem at_most_three_lookups admin rid uid p :
  (List.length (lookups_of admin rid uid p) ≤ 3)%nat.
Proof.
  destruct (isPatient_of p) eqn:Hp.
  - destruct (decide (uid = rid)) as [->|Hne].
    + pose proof (self_outcome_holds admin rid p Hp) as H. unfold self_outcome in H.
      destruct (where_get admin F_id rid 5); [|rewrite H; simpl; lia].
      destruct H as [_ H].
      destruct (where_get admin F_userId rid 5); [|rewrite H; simpl; lia].
      destruct H as (_ & -> & _). simpl. lia.
    + destruct (decide (rid = "")) as [->|Hrid].
      * rewrite lookups_of_eq, final_state_idle, seed_state_lookups;
        [simpl; lia | intros; try split; congruence..].
      * pose proof (other_outcome_holds admin rid uid p Hp Hne Hrid) as H.
        unfold other_outcome in H.
        destruct (doc_get admin rid); [|rewrite H; simpl; lia].
        destruct H as [_ H]. case_decide; [rewrite H; simpl; lia|].
        destruct (where_get admin F_id uid 5); [|rewrite H; simpl; lia].
        destruct H as (_ & -> & _). simpl. lia.
  - destruct (decide (rid = "")) as [->|Hrid].
    + rewrite lookups_of_eq, final_state_idle, seed_state_lookups;
        [simpl; lia | intros; try split; congruence..].
    + pose proof (staff_outcome_holds admin rid uid p Hp Hrid) as H.
      unfold staff_outcome in H.
      destruct (doc_get admin rid) as [snap|]; [|rewrite H; simpl; lia].
      destruct (ds_data snap); [destruct H as [-> _]; simpl; lia|].
      destruct (where_get admin F_id rid 1); [|rewrite H; simpl; lia].
      destruct H as (_ & -> & _). simpl. lia.
Qed.

(** X4: an empty requested id never reaches the store when the caller has a
    UID: the call issues no lookup and returns the non-blank ids of the
    inputs, whoever the caller is. *)
Theorem empty_requestedId_no_lookup admin uid p :
  uid ≠ "" →
  lookups_of admin "" uid p = [] ∧
  ∃ ids, resolvePatientIds admin "" uid p = Some ids ∧
         ∀ y, y ∈ ids ↔ nonblank y ∧ y ∈ input_ids "" uid p.
Proof.
  intros Hu.
  assert (E : final_state admin "" uid p = seed_state "" uid p).
  { apply final_state_idle; intros; try split; congruence. }
  rewrite lookups_of_eq, resolvePatientIds_eq, E, seed_state_lookups.
  split; [done|]. eexists. split; [done|]. intros y.
  rewrite list_elem_of_filter. split; intros [Hnb H]; (split; [done|]).
  - by apply input_ids_seed.
  - by apply input_ids_seed in H.
Qed.

Lemma empty_requestedId_no_lookup_witness :
  lookups_of (store [chart "" (Some "") (Some "") None] no_faults) "" "U1"
    (with_role "patient") = [].
Proof. by apply empty_requestedId_no_lookup. Defined.

(** ** Degraded stores *)

(** X5: when every lookup rejects, the result is exactly the non-blank ids
    of the inputs: the requested id, a patient caller's UID and the trimmed
    linked patient id. *)
Theorem outage_keeps_input_ids admin rid uid p :
  (∀ f v n, where_get admin f v n = None) →
  (∀ id, doc_get admin id = None) →
  ∃ ids, resolvePatientIds admin rid uid p = Some ids ∧
         ∀ y, y ∈ ids ↔ nonblank y ∧ y ∈ input_ids rid uid p.
Proof.
  intros Hw Hd. eexists. split; [apply resolvePatientIds_eq|].
  assert (E : patientIds (final_state admin rid uid p)
              = patientIds (seed_state rid uid p)).
  { destruct (isPatient_of p) eqn:Hp.
    - destruct (decide (uid = rid)) as [->|Hne].
      + by apply self_id_search_rejected.
      + destruct (decide (rid = "")) as [->|Hrid].
        * rewrite final_state_idle; [done | intros; try split; congruence..].
        * by apply other_doc_rejected.
    - destruct (decide (rid = "")) as [->|Hrid].
      + rewrite final_state_idle; [done | intros; try split; congruence..].
      + by apply staff_doc_rejected. }
  intros y. rewrite list_elem_of_filter, E.
  split; intros [Hnb H]; (split; [done|]).
  - by apply input_ids_seed.
  - by apply input_ids_seed in H.
Qed.

Lemma outage_keeps_input_ids_witness :
  ∃ ids, resolvePatientIds (store [chart "C1" None (Some "U1") None] (λ _, true))
           "C1" "U1" (with_role "patient") = Some ids ∧
         ∀ y, y ∈ ids ↔ nonblank y ∧ y ∈ input_ids "C1" "U1" (with_role "patient").
Proof. by apply outage_keeps_input_ids. Defined.

Lemma faults_only_remove_self st fails rid p y :
  isPatient_of p = true →
  y ∈ patientIds (final_state (store st fails) rid rid p) →
  y ∈ patientIds (final_state (store st no_faults) rid rid p).
Proof.
  intros Hp.
  destruct (self_all_resolved (store st no_faults) rid p Hp
              (run_where st F_id rid 5) (run_where st F_userId rid 5) (run_doc st rid))
    as [_ HN]; [done..|].
  rewrite HN.
  destruct (fails (Where F_id rid 5)) eqn:E1.
  { destruct (self_id_search_rejected (store st fails) rid p Hp) as [_ ->];
      [simpl; by rewrite E1 | tauto]. }
  destruct (fails (Where F_userId rid 5)) eqn:E2.
  { destruct (self_userId_search_rejected (store st fails) rid p Hp
                (run_where st F_id rid 5)) as [_ HF];
      [by apply store_where_ok | simpl; by rewrite E2 |].
    rewrite HF. tauto. }
  destruct (fails (Doc rid)) eqn:E3.
  { destruct (self_doc_rejected (store st fails) rid p Hp
                (run_where st F_id rid 5) (run_where st F_userId rid 5)) as [_ HF];
      [by apply store_where_ok.. | simpl; by rewrite E3 |].
    rewrite HF. tauto. }
  destruct (self_all_resolved (store st fails) rid p Hp
              (run_where st F_id rid 5) (run_where st F_userId rid 5) (run_doc st rid))
    as [_ HF]; [by apply store_where_ok.. | by apply store_doc_ok |].
  by rewrite HF.
Qed.

Lemma faults_only_remove_other st fails rid uid p y :
  isPatient_of p = true → uid ≠ rid → rid ≠ "" →
  y ∈ patientIds (final_state (store st fails) rid uid p) →
  y ∈ patientIds (final_state (store st no_faults) rid uid p).
Proof.
  intros Hp Hne Hrid.
  destruct (decide (uid = "")) as [Hu|Hu].
  { destruct (other_no_uid (store st no_faults) rid uid p Hp Hne Hrid (run_doc st rid))
      as [_ HN]; [done..|].
    rewrite HN. destruct (fails (Doc rid)) eqn:E1.
    - destruct (other_doc_rejected (store st fails) rid uid p Hp Hne Hrid) as [_ ->];
        [simpl; by rewrite E1 | tauto].
    - destruct (other_no_uid (store st fails) rid uid p Hp Hne Hrid (run_doc st rid))
        as [_ HF]; [by apply store_doc_ok | done |].
      by rewrite HF. }
  destruct (other_all_resolved (store st no_faults) rid uid p Hp Hne Hrid (run_doc st rid)
              (run_where st F_id uid 5) (run_where st F_userId uid 5))
    as [_ HN]; [done..|].
  rewrite HN.
  destruct (fails (Doc rid)) eqn:E1.
  { destruct (other_doc_rejected (store st fails) rid uid p Hp Hne Hrid) as [_ ->];
      [simpl; by rewrite E1 | tauto]. }
  destruct (fails (Where F_id uid 5)) eqn:E2.
  { destruct (other_id_search_rejected (store st fails) rid uid p Hp Hne Hrid
                (run_doc st rid)) as [_ HF];
      [by apply store_doc_ok | done | simpl; by rewrite E2 |].
    rewrite HF. tauto. }
  destruct (fails (Where F_userId uid 5)) eqn:E3.
  { destruct (other_userId_search_rejected (store st fails) rid uid p Hp Hne Hrid
                (run_doc st rid) (run_where st F_id uid 5)) as [_ HF];
      [by apply store_doc_ok | done | by apply store_where_ok | simpl; by rewrite E3 |].
    rewrite HF. tauto. }
  destruct (other_all_resolved (store st fails) rid uid p Hp Hne Hrid (run_doc st rid)
              (run_where st F_id uid 5) (run_where st F_userId uid 5))
    as [_ HF]; [by apply store_doc_ok | done | by apply store_where_ok..|].
  by rewrite HF.
Qed.

Lemma faults_only_remove_staff st fails rid uid p y :
  isPatient_of p = false → rid ≠ "" →
  y ∈ patientIds (final_state (store st fails) rid uid p) →
  y ∈ patientIds (final_state (store st no_faults) rid uid p).
Proof.
  intros Hp Hrid.
  destruct (fails (Doc rid)) eqn:E1.
  { destruct (staff_doc_rejected (store st fails) rid uid p Hp Hrid) as [_ ->];
      [simpl; by rewrite E1|].
    apply (final_state_grows (store st no_faults) rid uid p). }
  destruct (find_doc st rid) as [data|] eqn:Hd.
  { destruct (staff_doc_found (store st no_faults) rid uid p Hp Hrid (run_doc st rid) data)
      as [_ HN]; [done..|].
    destruct (staff_doc_found (store st fails) rid uid p Hp Hrid (run_doc st rid) data)
      as [_ HF]; [by apply store_doc_ok | done |].
    by rewrite HN, HF. }
  destruct (staff_searched (store st no_faults) rid uid p Hp Hrid (run_doc st rid)
              (run_where st F_id rid 1) (run_where st F_userId rid 1))
    as [_ HN]; [done..|].
  rewrite HN.
  destruct (fails (Where F_id rid 1)) eqn:E2.
  { destruct (staff_id_search_rejected (store st fails) rid uid p Hp Hrid (run_doc st rid))
      as [_ ->]; [by apply store_doc_ok | done | simpl; by rewrite E2 | tauto]. }
  destruct (fails (Where F_userId rid 1)) eqn:E3.
  { destruct (staff_userId_search_rejected (store st fails) rid uid p Hp Hrid
                (run_doc st rid) (run_where st F_id rid 1)) as [_ HF];
      [by apply store_doc_ok | done | by apply store_where_ok | simpl; by rewrite E3 |].
    rewrite HF. tauto. }
  destruct (staff_searched (store st fails) rid uid p Hp Hrid (run_doc st rid)
              (run_where st F_id rid 1) (run_where st F_userId rid 1))
    as [_ HF]; [by apply store_doc_ok | done | by apply store_where_ok..|].
  by rewrite HF.
Qed.

(** X6: rejected lookups only take ids away. On the same collection, the
    result of a call on which some lookups reject is contained in the
    result of the call on which none does. *)
Theorem faults_only_remove_ids st fails rid uid p ids ids0 :
  resolvePatientIds (store st fails) rid uid p = Some ids →
  resolvePatientIds (store st no_faults) rid uid p = Some ids0 →
  ids ⊆ ids0.
Proof.
  rewrite !resolvePatientIds_eq. intros [= <-] [= <-] y.
  rewrite !list_elem_of_filter. intros [Hnb H]. split; [done|]. revert H.
  destruct (isPatient_of p) eqn:Hp.
  - destruct (decide (uid = rid)) as [->|Hne]; [by apply faults_only_remove_self|].
    destruct (decide (rid = "")) as [->|Hrid]; [|by apply faults_only_remove_other].
    by rewrite !final_state_idle by (intros; try split; congruence).
  - destruct (decide (rid = "")) as [->|Hrid]; [|by apply faults_only_remove_staff].
    by rewrite !final_state_idle by (intros; try split; congruence).
Qed.

Lemma faults_only_remove_ids_witness : ["U1"] ⊆ ["U1"; "C2"].
Proof.
  apply (faults_only_remove_ids [chart "C2" None (Some "U1") None]
           (λ q, bool_decide (q = Where F_id "U1" 5)) "U1" "U1" (with_role "patient"));
    by vm_compute.
Defined.

(** * Further properties of the cache *)

Lemma size_evict now (cache : gmap string CacheEntry) :
  (size (CacheSpec.evict now cache) ≤ size cache)%nat.
Proof. unfold CacheSpec.evict. case_decide; [done | apply map_size_filter]. Qed.

Lemma size_insert_le k e (cache : gmap string CacheEntry) :
  (size (<[k := e]> cache) ≤ S (size cache))%nat.
Proof. rewrite map_size_insert. destruct (cache !! k); simpl; lia. Qed.

Lemma cached_cases clock (cache : gmap string CacheEntry) rid uid :
  (∃ e, cache !! cacheKey uid rid = Some e ∧ CacheSpec.fresh (now_check clock) e) ∨
  (∀ e, cache !! cacheKey uid rid = Some e → ¬ CacheSpec.fresh (now_check clock) e).
Proof.
  destruct (cache !! cacheKey uid rid) as [e|]; [|by right].
  destruct (decide (CacheSpec.fresh (now_check clock) e)); [left; by exists e|].
  right. by intros e' [= <-].
Qed.

(** X7: a call of the cached resolver adds at most one entry to the cache,
    and leaves the entries under the other keys as they were or evicts
    them: it never writes under another key than its own. *)
Theorem cache_touches_own_key_only admin clock (cache : gmap string CacheEntry)
    rid uid p :
  (size (cache_after (resolvePatientIdsCached admin clock cache rid uid p))
     ≤ S (size cache))%nat ∧
  ∀ k e, k ≠ cacheKey uid rid →
         cache_after (resolvePatientIdsCached admin clock cache rid uid p) !! k = Some e →
         cache !! k = Some e.
Proof.
  destruct (cached_cases clock cache rid uid) as [(e0 & E & Hf)|Hmiss].
  - rewrite (cached_hit _ _ _ _ _ _ e0) by done. simpl. split; [lia | done].
  - rewrite cached_miss by done. simpl. split.
    + etrans; [apply size_evict | apply size_insert_le].
    + intros k e Hk [H _]%evict_lookup. by rewrite lookup_insert_ne in H.
Qed.

(** X8: the sweep does not bound the cache. When no entry is older than the
    TTL at the time of the sweep, a call that stores keeps every entry,
    however many the cache holds; with a key the cache did not hold, it
    grows by one. *)
Theorem fresh_entries_never_evicted admin clock (cache : gmap string CacheEntry)
    rid uid p :
  cache !! cacheKey uid rid = None →
  (∀ k e, cache !! k = Some e → now_sweep clock - timestamp e ≤ CACHE_TTL) →
  now_sweep clock - now_store clock ≤ CACHE_TTL →
  (∀ k e, cache !! k = Some e →
          cache_after (resolvePatientIdsCached admin clock cache rid uid p) !! k = Some e) ∧
  size (cache_after (resolvePatientIdsCached admin clock cache rid uid p))
    = S (size cache).
Proof.
  intros Hnone Hfresh Hnew.
  rewrite cached_miss by (intros e; by rewrite Hnone).
  simpl.
  assert (E : CacheSpec.evict (now_sweep clock)
                (<[cacheKey uid rid :=
                     {| ids := filter nonblank (patientIds (final_state admin rid uid p));
                        timestamp := now_store clock |}]> cache)
              = <[cacheKey uid rid :=
                     {| ids := filter nonblank (patientIds (final_state admin rid uid p));
                        timestamp := now_store clock |}]> cache).
  { unfold CacheSpec.evict. case_decide; [done|]. apply map_filter_id.
    intros k e. rewrite lookup_insert. unfold CacheSpec.expired. simpl.
    case_decide as Hk.
    - intros [= <-]. simpl. lia.
    - intros He%Hfresh. lia. }
  rewrite E. split.
  - intros k e H. rewrite lookup_insert_ne; [done|]. intros <-. congruence.
  - by rewrite map_size_insert, Hnone.
Qed.

Lemma fresh_entries_never_evicted_witness :
  size (cache_after (resolvePatientIdsCached (store [] no_faults)
          {| now_check := 1000; now_store := 1000; now_sweep := 1001 |}
          (stale_cache 1001) "U1" "U1" (with_role "patient"))) = 1002%nat.
Proof.
  change 1002%nat with (S 1001).
  replace 1001%nat with (size (stale_cache 1001)) at 2 by by vm_compute.
  apply fresh_entries_never_evicted.
  - by vm_compute.
  - intros k e H. simpl.
    assert (timestamp e = 0) as ->; [|unfold CACHE_TTL; lia].
    unfold stale_cache in H. apply elem_of_list_to_map_2 in H.
    apply list_elem_of_fmap in H as (i & [= _ ->] & _). done.
  - simpl. unfold CACHE_TTL. lia.
Defined.

Lemma append_assoc (a b c : string) : (a +:+ b) +:+ c = a +:+ (b +:+ c).
Proof.
  induction a as [|x a IH]; [done|].
  change (String x ((a +:+ b) +:+ c) = String x (a +:+ (b +:+ c))). by rewrite IH.
Qed.

(** X9: the cache key does not separate its two parts. Two calls whose
    [userUid] and [requestedId] differ but concatenate to the same key
    share an entry: within the TTL after the first call stored its result,
    the second call returns that result, the ids resolved for the other
    pair, without any lookup. Keys collide as soon as a colon can move from
    one part to the other. *)
Theorem cache_key_collision :
  (∀ a b c, cacheKey (a +:+ ":" +:+ b) c = cacheKey a (b +:+ ":" +:+ c)) ∧
  (∀ admin admin' clock clock' (cache : gmap string CacheEntry) rid uid p rid' uid' p',
     cacheKey uid' rid' = cacheKey uid rid →
     (∀ e, cache !! cacheKey uid rid = Some e → ¬ CacheSpec.fresh (now_check clock) e) →
     now_sweep clock ≤ now_check clock' →
     now_check clock' - now_store clock < CACHE_TTL →
     returned (resolvePatientIdsCached admin' clock'
                 (cache_after (resolvePatientIdsCached admin clock cache rid uid p))
                 rid' uid' p')
       = resolvePatientIds admin rid uid p ∧
     issued (resolvePatientIdsCached admin' clock'
               (cache_after (resolvePatientIdsCached admin clock cache rid uid p))
               rid' uid' p') = []).
Proof.
  split.
  - intros a b c. unfold cacheKey. by rewrite !append_assoc.
  - intros admin admin' clock clock' cache rid uid p rid' uid' p' Hkey Hmiss Hmono Hin.
    rewrite (cached_miss admin) by done. simpl.
    rewrite (cached_hit admin' clock' _ rid' uid' p'
               {| ids := filter nonblank (patientIds (final_state admin rid uid p));
                  timestamp := now_store clock |}).
    + simpl. by rewrite resolvePatientIds_eq.
    + rewrite Hkey. apply evict_lookup. split; [apply lookup_insert_eq|].
      intros _. unfold CacheSpec.expired. simpl. lia.
    + unfold CacheSpec.fresh. simpl. lia.
Qed.

Lemma cache_key_collision_witness :
  returned (resolvePatientIdsCached (store [] no_faults)
              {| now_check := 2000; now_store := 2000; now_sweep := 2000 |}
              (cache_after
                 (resolvePatientIdsCached (store [] no_faults)
                    {| now_check := 1000; now_store := 1000; now_sweep := 1000 |}
                    ∅ "x:y" "U1" (with_role "doctor")))
              "y" "U1:x" (with_role "patient"))
    = Some ["x:y"].
Proof.
  destruct cache_key_collision as [_ H].
  destruct (H (store [] no_faults) (store [] no_faults)
              {| now_check := 1000; now_store := 1000; now_sweep := 1000 |}
              {| now_check := 2000; now_store := 2000; now_sweep := 2000 |}
              ∅ "x:y" "U1" (with_role "doctor") "y" "U1:x" (with_role "patient"))
    as [Hr _].
  - done.
  - intros e. by rewrite lookup_empty.
  - simpl. lia.
  - by vm_compute.
  - rewrite Hr. by vm_compute.
Defined.

(** * The record routes *)

Lemma elem_of_patientClauses ids c :
  c ∈ patientClauses ids ↔
  ∃ id, id ∈ ids ∧ (c = FieldEq "patientId" id ∨ c = FieldEq "patientUid" id).
Proof.
  unfold patientClauses. rewrite list_elem_of_In, in_flat_map. split.
  - intros (id & Hin%list_elem_of_In & Hc%list_elem_of_In). exists id. split; [done|].
    apply elem_of_cons in Hc as [->|Hc]; [by left|].
    apply list_elem_of_singleton in Hc as ->. by right.
  - intros (id & Hin & Hc). exists id. split; [by apply list_elem_of_In|].
    apply list_elem_of_In. destruct Hc as [->| ->]; [left | right; left].
Qed.

Lemma length_patientClauses ids :
  List.length (patientClauses ids) = (2 * List.length ids)%nat.
Proof. induction ids as [|id r IH]; simpl; [done | rewrite IH; lia]. Qed.

(** X10: the filter of a record route, for every behaviour of the chart
    store. Its [$or] array holds two clauses per resolved id, one on
    [patientId] and one on [patientUid], and no other clause; no clause
    tests a blank value. For a non-blank requested id both clauses on the
    requested id are there, so the array is not empty. *)
Theorem record_filter_clauses admin rid uid p :
  ∃ ids, resolvePatientIds admin rid uid p = Some ids ∧
    query_of admin Or rid uid p = Some (Or (patientClauses ids)) ∧
    List.length (patientClauses ids) = (2 * List.length ids)%nat ∧
    (∀ f x, FieldEq f x ∈ patientClauses ids →
            (f = "patientId" ∨ f = "patientUid") ∧ x ∈ ids ∧ all_white x = false) ∧
    (all_white rid = false →
       FieldEq "patientId" rid ∈ patientClauses ids ∧
       FieldEq "patientUid" rid ∈ patientClauses ids).
Proof.
  eexists. split; [apply resolvePatientIds_eq|].
  unfold query_of. rewrite resolvePatientIds_eq. simpl.
  split_and!; [done | apply length_patientClauses | |].
  - intros f x (id & Hin & Hc)%elem_of_patientClauses.
    assert (x = id ∧ (f = "patientId" ∨ f = "patientUid")) as [-> Hf].
    { destruct Hc as [[= -> ->]|[= -> ->]]; tauto. }
    split_and!; [done..|].
    apply list_elem_of_filter in Hin as [Hnb _]. by apply nonblank_all_white.
  - intros Hnb%nonblank_all_white.
    assert (rid ∈ filter nonblank (patientIds (final_state admin rid uid p))).
    { eapply seed_resolved; [apply resolvePatientIds_eq | | done].
      apply seed_state_ids. by left. }
    split; apply elem_of_patientClauses; exists rid; tauto.
Qed.

Lemma record_filter_clauses_witness :
  ∃ ids, resolvePatientIds (store [] (λ _, true)) "C1" "U1" (with_role "patient")
           = Some ids ∧
         FieldEq "patientUid" "C1" ∈ patientClauses ids.
Proof.
  destruct (record_filter_clauses (store [] (λ _, true)) "C1" "U1" (with_role "patient"))
    as (ids & Hr & _ & _ & _ & H).
  exists ids. split; [done|]. by apply H.
Defined.

Lemma selects_or ids d :
  selects (Or (patientClauses ids)) d ↔
  ∃ id v, id ∈ ids ∧ (d !! "patientId" = Some v ∨ d !! "patientUid" = Some v) ∧
          value_eq v id.
Proof.
  simpl. rewrite Exists_exists. split.
  - intros (c & (id & Hin & Hc)%elem_of_patientClauses & Hs).
    destruct Hc as [-> | ->]; destruct Hs as (v & Hv & He); exists id, v; tauto.
  - intros (id & v & Hin & [Hv|Hv] & He).
    + exists (FieldEq "patientId" id). split; [|by exists v].
      apply elem_of_patientClauses. exists id. tauto.
    + exists (FieldEq "patientUid" id). split; [|by exists v].
      apply elem_of_patientClauses. exists id. tauto.
Qed.

(** X11: which records the GET routes read, whatever the chart store does.
    The filter of the prescriptions route and of the lab-requests route
    selects exactly the records filed under one of the resolved ids; the
    filter of the lab-results route selects exactly those of them whose
    [labRequestId] is the [labId] of the route, so that a record filed under
    the requested id for another lab request is not read. A record filed
    under the non-blank requested id is filed under a resolved id, and for a
    patient caller so is a record filed under their own non-blank UID, also
    when they asked by chart id. *)
Theorem records_of_requested_id_selected admin rid uid p :
  ∃ ids, resolvePatientIds admin rid uid p = Some ids ∧
    query_of admin prescriptions_filter rid uid p = Some (Or (patientClauses ids)) ∧
    query_of admin lab_requests_filter rid uid p = Some (Or (patientClauses ids)) ∧
    (∀ labId,
       query_of admin (lab_results_filter labId) rid uid p
         = Some (OrWith (patientClauses ids) (FieldEq "labRequestId" labId))) ∧
    (∀ d : document,
       selects (Or (patientClauses ids)) d ↔ ∃ id, id ∈ ids ∧ filed_under d id) ∧
    (∀ labId (d : document),
       selects (OrWith (patientClauses ids) (FieldEq "labRequestId" labId)) d ↔
       (∃ id, id ∈ ids ∧ filed_under d id) ∧
       ∃ v, d !! "labRequestId" = Some v ∧ value_eq v labId) ∧
    (all_white rid = false → rid ∈ ids) ∧
    (isPatient_of p = true → all_white uid = false → uid ∈ ids).
Proof.
  eexists. split; [apply resolvePatientIds_eq|].
  unfold query_of, prescriptions_filter, lab_requests_filter, lab_results_filter.
  rewrite resolvePatientIds_eq. simpl.
  assert (Hor : ∀ ids (d : document),
            Exists (satisfies d) (patientClauses ids) ↔ ∃ id, id ∈ ids ∧ filed_under d id).
  { intros ids d. rewrite (selects_or ids d). unfold filed_under. naive_solver. }
  split_and!; [done | done | done | | | |].
  - intros d. apply Hor.
  - intros labId d. by rewrite Hor.
  - intros Hnb%nonblank_all_white.
    eapply seed_resolved; [apply resolvePatientIds_eq | | done].
    apply seed_state_ids. by left.
  - intros Hp Hnb%nonblank_all_white.
    eapply seed_resolved; [apply resolvePatientIds_eq | | done].
    apply seed_state_ids. right. left. by destruct Hnb.
Qed.

Lemma records_of_requested_id_selected_witness :
  ∃ ids, resolvePatientIds (store [] (λ _, true)) "C1" "U1" (with_role "patient") = Some ids ∧
    selects (Or (patientClauses ids)) {[ "patientUid" := JS.VStr "U1" ]} ∧
    ¬ selects (OrWith (patientClauses ids) (FieldEq "labRequestId" "L1"))
        {[ "patientUid" := JS.VStr "U1"; "labRequestId" := JS.VStr "L2" ]}.
Proof.
  destruct (records_of_requested_id_selected (store [] (λ _, true)) "C1" "U1"
              (with_role "patient")) as (ids & Hr & _ & _ & _ & Hor & Hwith & _ & Hu).
  exists ids. split; [done|]. split.
  - apply Hor. exists "U1". split; [by apply Hu|].
    exists (JS.VStr "U1"). split; [by right | by left].
  - intros (_ & v & Hv & He)%Hwith.
    assert (v = JS.VStr "L2") as -> by (vm_compute in Hv; congruence).
    destruct He as [[=]|(l & [=] & _)].
Defined.

(** * Roles and guards *)

Lemma strict_eq_string_true v s :
  strict_eq_string v s = true ↔ v = Some (JS.VStr s).
Proof.
  unfold strict_eq_string. destruct v as [[x| | | |]|]; try (split; [done|by intros [=]]).
  rewrite bool_decide_eq_true. split; [by intros -> | by intros [= ->]].
Qed.

(** The four roles exclude each other. *)
Lemma role_cases u :
  match Authz.isAdmin u, Authz.isDoctor u, Authz.isNurse u, Authz.isPatient u with
  | true, false, false, false
  | false, true, false, false
  | false, false, true, false
  | false, false, false, true
  | false, false, false, false => True
  | _, _, _, _ => False
  end.
Proof.
  unfold Authz.isAdmin, Authz.isDoctor, Authz.isNurse, Authz.isPatient.
  destruct (strict_eq_string (Authz.role_of u) "admin") eqn:Ea;
  destruct (strict_eq_string (Authz.role_of u) "doctor") eqn:Ed;
  destruct (strict_eq_string (Authz.role_of u) "nurse") eqn:En;
  destruct (strict_eq_string (Authz.role_of u) "patient") eqn:Ep;
  try done;
  repeat match goal with
         | H : strict_eq_string _ _ = true |- _ => apply strict_eq_string_true in H
         end; congruence.
Qed.

(** X13: the role guards are ordered. Whoever passes [requireAdmin] passes
    [requireDoctorOrAdmin], whoever passes that passes
    [requireStaffForNotes], which lets through exactly the callers that
    [requireProviderOrAdmin] lets through; a caller who passes
    [requirePatient] is refused by all of them with status 403. *)
Theorem guards_ordered req :
  (Guards.requireAdmin req = Next → Guards.requireDoctorOrAdmin req = Next) ∧
  (Guards.requireDoctorOrAdmin req = Next → Guards.requireStaffForNotes req = Next) ∧
  (Guards.requireStaffForNotes req = Next ↔ Guards.requireProviderOrAdmin req = Next) ∧
  (Guards.requirePatient req = Next →
     Guards.requireAdmin req = Status 403 "Admin only" ∧
     Guards.requireDoctorOrAdmin req = Status 403 "Doctor only" ∧
     Guards.requireStaffForNotes req = Status 403 "Staff only" ∧
     Guards.requireProviderOrAdmin req = Status 403 "Provider only").
Proof.
  pose proof (role_cases (req_profile req)) as H.
  unfold Guards.requireAdmin, Guards.requireDoctorOrAdmin, Guards.requireStaffForNotes,
    Guards.requireProviderOrAdmin, Guards.requirePatient, Authz.isProvider.
  destruct (Authz.isAdmin (req_profile req)), (Authz.isDoctor (req_profile req)),
    (Authz.isNurse (req_profile req)), (Authz.isPatient (req_profile req));
    simpl in *; try done; split_and!; done.
Qed.

Lemma guards_ordered_witness :
  Guards.requireStaffForNotes
    {| req_uid := Some "D7";
       req_profile := Some {| profile_of := {| role := Some (JS.VStr "doctor");
                                               patientId := None; phone := None |};
                              isVerified := None; isActive := None |};
       req_params := ∅ |} = Next.
Proof.
  match goal with |- Guards.requireStaffForNotes ?r = _ =>
    destruct (guards_ordered r) as (_ & H & _) end.
  by apply H.
Defined.

(** X14: who may read a patient's nested resources. A patient may read the
    resources of exactly one patient id, their own UID. A doctor or nurse
    may read any patient's exactly when the profile is both verified and
    active, and then whatever the patient id. An admin may read any,
    verified or not. *)
Theorem canRead_by_role pid req :
  (Authz.isPatient (req_profile req) = true →
     Guards.canReadPatientResource pid req = true ↔ req_uid req = Some pid) ∧
  (Authz.isProvider (req_profile req) = true →
     Guards.canReadPatientResource pid req = true ↔
     ∃ d, req_profile req = Some d ∧
          isVerified d = Some (JS.VBool true) ∧ isActive d = Some (JS.VBool true)) ∧
  (Authz.isAdmin (req_profile req) = true →
     Guards.canReadPatientResource pid req = true).
Proof.
  pose proof (role_cases (req_profile req)) as H.
  unfold Guards.canReadPatientResource, Authz.isProvider, Authz.isVerifiedStaff in *.
  assert (Hst : ∀ d, req_profile req = Some d →
            Authz.staff_role (role (profile_of d)) =
            Authz.isAdmin (req_profile req) || Authz.isDoctor (req_profile req)
            || Authz.isNurse (req_profile req)).
  { intros d ->. done. }
  assert (Htrue : ∀ v, strict_eq_true v = true ↔ v = Some (JS.VBool true)).
  { intros [[| |[]| |]|]; simpl; split; done. }
  destruct (req_profile req) as [d|] eqn:Ed.
  - rewrite (Hst d eq_refl).
    destruct (Authz.isAdmin (Some d)), (Authz.isDoctor (Some d)),
      (Authz.isNurse (Some d)), (Authz.isPatient (Some d)); simpl in *; try done;
      split_and!; try done; intros _.
    + destruct (strict_eq_true (isVerified d)) eqn:Ev, (strict_eq_true (isActive d)) eqn:Ea;
        simpl; split; try done.
      * intros _. exists d. by rewrite <- !Htrue.
      * intros (d' & [= <-] & _ & Ha%Htrue). congruence.
      * intros (d' & [= <-] & Hv%Htrue & _). congruence.
      * intros (d' & [= <-] & Hv%Htrue & _). congruence.
    + destruct (strict_eq_true (isVerified d)) eqn:Ev, (strict_eq_true (isActive d)) eqn:Ea;
        simpl; split; try done.
      * intros _. exists d. by rewrite <- !Htrue.
      * intros (d' & [= <-] & _ & Ha%Htrue). congruence.
      * intros (d' & [= <-] & Hv%Htrue & _). congruence.
      * intros (d' & [= <-] & Hv%Htrue & _). congruence.
    + destruct (decide (req_uid req = Some pid)) as [E|E].
      * by rewrite bool_decide_eq_true_2.
      * by rewrite bool_decide_eq_false_2.
  - simpl. split_and!; done.
Qed.

Lemma canRead_by_role_witness :
  Guards.canReadPatientResource "C1"
    {| req_uid := Some "U1";
       req_profile := Some {| profile_of := {| role := Some (JS.VStr "patient");
                                               patientId := None; phone := None |};
                              isVerified := None; isActive := None |};
       req_params := ∅ |} = true ↔ Some "U1" = Some "C1".
Proof.
  match goal with |- Guards.canReadPatientResource ?pid ?r = _ ↔ _ =>
    destruct (canRead_by_role pid r) as (H & _) end.
  by apply H.
Defined.

(** X15: [requireCanReadPatientResource] lets a request through exactly
    when the route parameter is there, is not empty, and names a patient
    whose resources the caller may read. A missing or empty parameter is
    answered with status 400 before any permission is looked at, for an
    admin as for anyone. *)
Theorem requireCanRead_replies name req :
  (Guards.requireCanReadPatientResource name req = Next ↔
     ∃ pid, req_params req !! name = Some pid ∧ pid ≠ "" ∧
            Guards.canReadPatientResource pid req = true) ∧
  (Guards.requireCanReadPatientResource name req = Status 400 "Missing patientId" ↔
     req_params req !! name = None ∨ req_params req !! name = Some "").
Proof.
  unfold Guards.requireCanReadPatientResource.
  destruct (req_params req !! name) as [pid|]; [|split; split; try done;
    [by intros (? & [=] & _) | by left]].
  destruct (JS.truthy pid) eqn:Et; simpl.
  - apply truthy_true in Et.
    destruct (Guards.canReadPatientResource pid req) eqn:Ec; simpl; split; split;
      try done.
    + intros _. by exists pid.
    + intros [?|[= ->]]; done.
    + intros (? & [= <-] & _ & ?). congruence.
    + intros [?|[= ->]]; done.
  - assert (pid = "") as ->.
    { destruct (decide (pid = "")) as [|n]; [done|]. apply truthy_true in n. congruence. }
    split; split; try done.
    + by intros (? & [= <-] & ? & _).
    + intros _. by right.
Qed.

(** X16: the guards read the role more strictly than the resolver does.
    Every profile that [isPatient] accepts is a patient caller for the
    resolver; a profile whose role only lower-cases to 'patient' (such as
    'Patient') is a patient caller for the resolver but is refused by
    [requirePatient] and by every staff guard, may not read any patient's
    resources unless it is the caller's own check that fails, and may not
    create lab results. *)
Theorem strict_role_vs_resolver req :
  (Authz.isPatient (req_profile req) = true →
     isPatient_of (profile_of <$> req_profile req) = true) ∧
  (isPatient_of (profile_of <$> req_profile req) = true →
   Authz.isPatient (req_profile req) = false →
     Guards.requirePatient req = Status 403 "Patient only" ∧
     Guards.requireStaffForNotes req = Status 403 "Staff only" ∧
     Lab.canCreateResult req = false ∧
     ∀ pid, Guards.canReadPatientResource pid req = false).
Proof.
  assert (Hrole : (profile_of <$> req_profile req) ≫= role = Authz.role_of (req_profile req)).
  { unfold Authz.role_of. by destruct (req_profile req). }
  split.
  - unfold Authz.isPatient. intros H%strict_eq_string_true.
    unfold isPatient_of. rewrite Hrole, H. done.
  - unfold isPatient_of. rewrite Hrole. intros Hres Hstrict.
    assert (Hno : ∀ s, JS.toLowerCase s ≠ "patient" →
              strict_eq_string (Authz.role_of (req_profile req)) s = false).
    { intros s Hs. destruct (strict_eq_string _ s) eqn:E; [|done].
      apply strict_eq_string_true in E. rewrite E in Hres.
      apply bool_decide_eq_true in Hres. done. }
    assert (Ha : Authz.isAdmin (req_profile req) = false) by by apply Hno.
    assert (Hd : Authz.isDoctor (req_profile req) = false) by by apply Hno.
    assert (Hn : Authz.isNurse (req_profile req) = false) by by apply Hno.
    unfold Guards.requirePatient, Guards.requireStaffForNotes, Lab.canCreateResult,
      Guards.canReadPatientResource.
    rewrite Ha, Hd, Hn, Hstrict. simpl. split_and!; try done.
    intros pid. unfold Authz.isVerifiedStaff.
    destruct (req_profile req) as [d|] eqn:Ed; [|done].
    assert (Authz.staff_role (role (profile_of d)) = false) as ->; [|done].
    unfold Authz.staff_role.
    change (role (profile_of d)) with (Authz.role_of (Some d)).
    by rewrite !Hno.
Qed.

Lemma strict_role_vs_resolver_witness :
  Lab.canCreateResult
    {| req_uid := Some "U1";
       req_profile := Some {| profile_of := {| role := Some (JS.VStr "Patient");
                                               patientId := None; phone := None |};
                              isVerified := None; isActive := None |};
       req_params := ∅ |} = false.
Proof.
  match goal with |- Lab.canCreateResult ?r = _ =>
    destruct (strict_role_vs_resolver r) as (_ & H) end.
  by apply H.
Defined.

(** X17: lab results. Whoever may modify a result may create one. A nurse
    or a patient may modify a result only if its uploader, read from
    [uploadedById] and from the legacy [uploadedByUid] only when the former
    is missing, is their own UID; an admin or a doctor may modify any. *)
Theorem lab_result_permissions req existing :
  (Lab.canModifyResult req existing = true → Lab.canCreateResult req = true) ∧
  (Authz.isAdmin (req_profile req) = false → Authz.isDoctor (req_profile req) = false →
   Lab.canModifyResult req existing = true →
     ∀ uid, req_uid req = Some uid →
       existing !! "uploadedById" = Some (JS.VStr uid) ∨
       (existing !! "uploadedById" = None ∧
        existing !! "uploadedByUid" = Some (JS.VStr uid))) ∧
  (Authz.isAdmin (req_profile req) = true ∨ Authz.isDoctor (req_profile req) = true →
     Lab.canModifyResult req existing = true).
Proof.
  unfold Lab.canModifyResult, Lab.canCreateResult, Lab.owner.
  destruct (Authz.isAdmin (req_profile req)), (Authz.isDoctor (req_profile req));
    simpl; split_and!; try done; try (intros [?|?]; done).
  - by intros [H _]%andb_true_iff.
  - intros _ _ [_ H]%andb_true_iff uid Hu. rewrite Hu in H.
    destruct (existing !! "uploadedById") as [v|] eqn:E1.
    + left. destruct v; try done. simpl in H. apply bool_decide_eq_true in H. by subst.
    + right. split; [done|].
      destruct (existing !! "uploadedByUid") as [[]|]; try done.
      simpl in H. apply bool_decide_eq_true in H. by subst.
Qed.

Lemma lab_result_permissions_witness :
  Lab.canCreateResult
    {| req_uid := Some "N1";
       req_profile := Some {| profile_of := {| role := Some (JS.VStr "nurse");
                                               patientId := None; phone := None |};
                              isVerified := None; isActive := None |};
       req_params := ∅ |} = true.
Proof.
  match goal with |- Lab.canCreateResult ?r = _ =>
    destruct (lab_result_permissions r {[ "uploadedByUid" := JS.VStr "N1" ]})
      as (H & _) end.
  by apply H.
Defined.

(** * Notes and client documents *)

Lemma trimStart_idem s : JS.trimStart (JS.trimStart s) = JS.trimStart s.
Proof.
  induction s as [|c r IH]; simpl; [done|].
  destruct (JS.is_white_space c) eqn:E; [done|]. simpl. by rewrite E.
Qed.

Lemma trimEnd_idem s : JS.trimEnd (JS.trimEnd s) = JS.trimEnd s.
Proof.
  induction s as [|c r IH]; simpl; [done|].
  destruct (JS.trimEnd r) as [|c' r'] eqn:E.
  - destruct (JS.is_white_space c) eqn:Ec; simpl; [done|]. by rewrite Ec.
  - simpl in *. rewrite IH. done.
Qed.

Lemma trimStart_trimEnd s :
  JS.trimStart s = s → JS.trimStart (JS.trimEnd s) = JS.trimEnd s.
Proof.
  destruct s as [|c r]; [done|]. simpl.
  destruct (JS.is_white_space c) eqn:Ec.
  - intros H. exfalso.
    assert (L : (String.length (JS.trimStart r) ≤ String.length r)%nat).
    { clear. induction r as [|x r IH]; simpl; [lia|].
      destruct (JS.is_white_space x); simpl; lia. }
    rewrite H in L. simpl in L. lia.
  - intros _. destruct (JS.trimEnd r); simpl; by rewrite Ec.
Qed.

(** [trim] is idempotent. *)
Lemma trim_idem s : JS.trim (JS.trim s) = JS.trim s.
Proof.
  unfold JS.trim. rewrite trimStart_trimEnd by apply trimStart_idem.
  apply trimEnd_idem.
Qed.

(** X18: the note text a route accepts. It is never empty nor
    whitespace-only and is already trimmed; it is the trimmed [noteText]
    of the body when the body has one and the trimmed [text] otherwise. A
    [noteText] that is present always decides: if it is blank or not a
    string, the request is answered with status 400 even when [text] holds
    a usable text. *)
Theorem note_text_accepted noteText text :
  (∀ t, requireNonEmptyNoteText noteText text = inl t →
        all_white t = false ∧ JS.trim t = t ∧
        ∃ s, nullish_or noteText text = Some (JS.VStr s) ∧ t = JS.trim s) ∧
  (∀ v, noteText = Some v →
        requireNonEmptyNoteText noteText text = requireNonEmptyNoteText (Some v) None) ∧
  (∀ s, nullish_or noteText text = Some (JS.VStr s) → all_white s = false →
        requireNonEmptyNoteText noteText text = inl (JS.trim s)) ∧
  ((∀ s, nullish_or noteText text = Some (JS.VStr s) → all_white s = true) →
        requireNonEmptyNoteText noteText text = inr (Status 400 "noteText is required")).
Proof.
  unfold requireNonEmptyNoteText. split_and!.
  - intros t. destruct (nullish_or noteText text) as [[s| | | |]|]; simpl; try done.
    destruct (JS.truthy (JS.trim s)) eqn:Et; simpl; [|done].
    intros [= <-]. apply truthy_true in Et. split_and!.
    + apply nonblank_all_white. split; [done|]. by rewrite trim_idem.
    + apply trim_idem.
    + by exists s.
  - by intros v ->.
  - intros s -> Hs%nonblank_all_white. destruct Hs as [_ Hs].
    apply truthy_true in Hs. by rewrite Hs.
  - intros H. destruct (nullish_or noteText text) as [[s| | | |]|]; simpl; try done.
    specialize (H s eq_refl). apply trim_empty in H. by rewrite H.
Qed.

Lemma note_text_accepted_witness :
  requireNonEmptyNoteText (Some (JS.VStr "  ")) (Some (JS.VStr "seen today"))
    = inr (Status 400 "noteText is required").
Proof.
  destruct (note_text_accepted (Some (JS.VStr "  ")) (Some (JS.VStr "seen today")))
    as (_ & _ & _ & H).
  apply H. intros s [= <-]. done.
Defined.

(** X19: the client shape of a stored document. [_id] is never sent; every
    other field is sent as stored; [id] is the string form of [_id], unless
    the document stores a field named [id], which then is sent in its
    place. Without such a field, dropping [id] from the client document
    gives back the stored fields other than [_id]. *)
Theorem toClientId_fields (doc : document) :
  toClientId doc !! "_id" = None ∧
  (∀ k, k ≠ "_id" → k ≠ "id" → toClientId doc !! k = doc !! k) ∧
  (∀ v, doc !! "id" = Some v → toClientId doc !! "id" = Some v) ∧
  (doc !! "id" = None →
     (∀ v, doc !! "_id" = Some v →
           toClientId doc !! "id" = Some (JS.VStr (JS.toString v))) ∧
     delete "id" (toClientId doc) = delete "_id" doc).
Proof.
  unfold toClientId. cbv zeta. split_and!.
  - rewrite lookup_union, lookup_delete_eq. by rewrite lookup_singleton_ne.
  - intros k H1 H2. rewrite lookup_union, lookup_delete_ne by done.
    rewrite lookup_singleton_ne by done. by destruct (doc !! k).
  - intros v Hv. rewrite lookup_union, lookup_delete_ne, Hv by done.
    by rewrite lookup_singleton_eq.
  - intros Hnone. split.
    + intros v Hv. rewrite lookup_union, lookup_delete_ne, Hnone, Hv by done.
      by rewrite lookup_singleton_eq.
    + apply map_eq. intros k. destruct (decide (k = "id")) as [->|Hk].
      * by rewrite lookup_delete_eq, lookup_delete_ne, Hnone.
      * rewrite lookup_delete_ne, lookup_union by done.
        rewrite lookup_singleton_ne by done.
        by destruct (delete "_id" doc !! k).
Qed.

Lemma toClientId_fields_witness :
  toClientId {[ "_id" := JS.VStr "65f0a1"; "id" := JS.VStr "mine" ]} !! "id"
    = Some (JS.VStr "mine").
Proof.
  match goal with |- toClientId ?d !! _ = _ =>
    destruct (toClientId_fields d) as (_ & _ & H & _) end.
  by apply H.
Defined.

(** * Open slots *)

Lemma loop_budget_next step wEnd cursor (fuel : nat) :
  0 < step → cursor + step ≤ wEnd →
  (wEnd - cursor) / step + 1 ≤ Z.of_nat (S fuel) →
  (wEnd - (cursor + step)) / step + 1 ≤ Z.of_nat fuel.
Proof.
  intros Hs Hc Hf.
  replace (wEnd - (cursor + step)) with ((wEnd - cursor) + (-1) * step) by lia.
  rewrite Z.div_add by lia. lia.
Qed.

Lemma loop_budget_done step wEnd cursor :
  0 < step → (wEnd - cursor) / step + 1 ≤ 0 → wEnd < cursor.
Proof.
  intros Hs Hf. destruct (decide (wEnd < cursor)) as [|Hn]; [done|].
  assert (0 ≤ (wEnd - cursor) / step) by (apply Z.div_pos; lia). lia.
Qed.

(** The loop pushes exactly the free slots of the grid that starts at the
    cursor, as long as it is given the tests it needs. *)
Lemma slot_loop_spec fuel now step wEnd bookings cursor a b :
  0 < step →
  (wEnd - cursor) / step + 1 ≤ Z.of_nat fuel →
  (a, b) ∈ slot_loop fuel now step wEnd bookings cursor ↔
  ∃ k, 0 ≤ k ∧ a = cursor + k * step ∧ b = a + step ∧ b ≤ wEnd ∧ now < b ∧
       blocked bookings a b = false.
Proof.
  intros Hs. revert cursor. induction fuel as [|fuel IH]; intros cursor Hf.
  - simpl. apply loop_budget_done in Hf; [|done]. split.
    + by intros ?%elem_of_nil.
    + intros (k & Hk & -> & -> & Hb & _). nia.
  - simpl. destruct (cursor + step <=? wEnd) eqn:Ec.
    + apply Z.leb_le in Ec.
      specialize (IH (cursor + step) (loop_budget_next _ _ _ _ Hs Ec Hf)).
      assert (Hrest : (∃ k, 0 ≤ k ∧ a = cursor + step + k * step ∧ b = a + step ∧
                            b ≤ wEnd ∧ now < b ∧ blocked bookings a b = false) ↔
                      (∃ k, 1 ≤ k ∧ a = cursor + k * step ∧ b = a + step ∧
                            b ≤ wEnd ∧ now < b ∧ blocked bookings a b = false)).
      { split; intros (k & Hk & Ha & H).
        - exists (k + 1). split; [lia|]. split; [lia | done].
        - exists (k - 1). split; [lia|]. split; [lia | done]. }
      destruct (cursor + step <=? now) eqn:En.
      * apply Z.leb_le in En. rewrite IH, Hrest. split.
        -- intros (k & Hk & H). exists k. split; [lia | done].
        -- intros (k & Hk & Ha & Hb & Hw & Hn & Hbl).
           exists k. split; [|done].
           destruct (decide (k = 0)) as [->|]; [lia | lia].
      * apply Z.leb_gt in En. rewrite elem_of_app, IH, Hrest. split.
        -- intros [Hhead|(k & Hk & H)]; [|exists k; split; [lia | done]].
           destruct (blocked bookings cursor (cursor + step)) eqn:Eb;
             [by apply elem_of_nil in Hhead|].
           apply list_elem_of_singleton in Hhead as [= -> ->].
           exists 0. split_and!; [lia | lia | done | done | done | done].
        -- intros (k & Hk & Ha & Hb & Hw & Hn & Hbl).
           destruct (decide (k = 0)) as [->|Hk0].
           ++ left. assert (a = cursor) as -> by lia. subst b.
              rewrite Hbl. by apply list_elem_of_singleton.
           ++ right. exists k. split; [lia | done].
    + apply Z.leb_gt in Ec. split.
      * by intros ?%elem_of_nil.
      * intros (k & Hk & -> & -> & Hb & _). nia.
Qed.

(** The slots of the loop come in order, each ending before the next one
    starts. *)
Lemma slot_loop_sorted fuel now step wEnd bookings cursor :
  0 < step →
  Forall (λ x, cursor ≤ x.1) (slot_loop fuel now step wEnd bookings cursor) ∧
  StronglySorted (λ x y, x.2 ≤ y.1) (slot_loop fuel now step wEnd bookings cursor).
Proof.
  intros Hs. revert cursor. induction fuel as [|fuel IH]; intros cursor; simpl.
  - split; constructor.
  - destruct (cursor + step <=? wEnd); [|split; constructor].
    destruct (IH (cursor + step)) as [Hge Hsorted].
    assert (Hge' : Forall (λ x, cursor ≤ x.1)
                     (slot_loop fuel now step wEnd bookings (cursor + step))).
    { eapply Forall_impl; [exact Hge|]. simpl. intros x ?. lia. }
    destruct (cursor + step <=? now); [done|].
    destruct (blocked bookings cursor (cursor + step)); simpl; [done|].
    split.
    + constructor; [simpl; lia | done].
    + constructor; [done|]. eapply Forall_impl; [exact Hge|]. simpl. intros x ?. lia.
Qed.

Lemma slot_minutes_bounds parsed : 5 ≤ slot_minutes parsed ≤ 180.
Proof. unfold slot_minutes. lia. Qed.

Lemma blocked_false bookings a b :
  blocked bookings a b = false ↔
  ∀ bs be, (bs, be) ∈ bookings → ¬ (a < be ∧ bs < b).
Proof.
  unfold blocked. rewrite <- not_true_iff_false, existsb_exists. split.
  - intros H bs be Hin [H1 H2]. apply H. exists (bs, be).
    split; [by apply list_elem_of_In|]. unfold overlaps. simpl.
    apply andb_true_iff. split; by apply Z.ltb_lt.
  - intros H ([bs be] & Hin%list_elem_of_In & Ho). unfold overlaps in Ho. simpl in Ho.
    apply andb_true_iff in Ho as [H1%Z.ltb_lt H2%Z.ltb_lt]. by apply (H bs be).
Qed.

Lemma elem_of_bookings_of minutes appts a st :
  a ∈ appts →
  nullish_or (scheduledAt a) (requestedStartAt a) = Some st →
  (st, match nullish_or (scheduledEndAt a) (requestedEndAt a) with
       | Some en => en
       | None => st + minutes * 60 * 1000
       end) ∈ bookings_of minutes appts.
Proof.
  induction appts as [|x r IH]; [by intros ?%elem_of_nil|].
  intros [->|Hin]%elem_of_cons Hst; simpl.
  - rewrite Hst. by left.
  - destruct (nullish_or (scheduledAt x) (requestedStartAt x)); [right|]; by apply IH.
Qed.

Lemma elem_of_calendar_windows from to cal w :
  w ∈ calendar_windows from to cal → from ≤ w.1 ∧ w.1 < w.2 ∧ w.2 ≤ to.
Proof.
  induction cal as [|[[st|] [en|]] r IH]; simpl; try done.
  - by intros ?%elem_of_nil.
  - destruct (_ >? _) eqn:E; [|done].
    intros [->|Hin]%elem_of_cons; [|by apply IH]. simpl.
    apply Z.gtb_lt in E.
    destruct (st <? from) eqn:E1, (en >? to) eqn:E2;
      rewrite ?Z.ltb_lt, ?Z.ltb_ge, ?Z.gtb_lt in *; try lia.
    all: try (apply Z.ltb_ge in E1); try (apply Z.gtb_ltb in E2); lia.
Qed.

Section OpenSlotsProperties.

Context (getMinutes setSeconds00 : Z → Z).

(** X20: the slots of one window are exactly the free slots of a grid. The
    grid starts at the first cursor of the window and steps by the slot
    length; a grid slot is pushed if and only if it ends within the window,
    ends after now and overlaps no booking. The loop is never cut short:
    every such slot is there. *)
Theorem window_slots_are_free_grid_slots now minutes bookings w a b :
  0 < minutes →
  (a, b) ∈ window_slots getMinutes setSeconds00 now minutes bookings w ↔
  ∃ k, 0 ≤ k ∧
       a = first_cursor getMinutes setSeconds00 minutes w.1 + k * (minutes * 60 * 1000) ∧
       b = a + minutes * 60 * 1000 ∧ b ≤ w.2 ∧ now < b ∧
       ∀ bs be, (bs, be) ∈ bookings → ¬ (a < be ∧ bs < b).
Proof.
  intros Hm. unfold window_slots. cbv zeta.
  set (step := minutes * 60 * 1000).
  set (c := first_cursor getMinutes setSeconds00 minutes w.1).
  assert (Hs : 0 < step) by (unfold step; lia).
  destruct (decide (0 ≤ (w.2 - c) / step + 1)) as [Hf|Hf].
  - rewrite slot_loop_spec; [| done | unfold loop_tests; by rewrite Z2Nat.id].
    by setoid_rewrite blocked_false.
  - unfold loop_tests. replace (Z.to_nat _) with 0%nat by lia. simpl. split.
    + by intros ?%elem_of_nil.
    + intros (k & Hk & -> & -> & Hb & _). exfalso. apply Hf.
      assert (0 ≤ (w.2 - c) / step) by (apply Z.div_pos; nia). lia.
Qed.

(** X21: what the route offers. The slot length is between 5 and 180
    minutes; every slot offered has that length, ends after now, and
    overlaps the booked interval of no appointment that step 3 read: from
    its scheduled start, or else its requested start, to its scheduled end,
    or else its requested end, or else one slot length after its start.
    This holds in every time zone. *)
Theorem open_slots_sound parsed now from to uiMap appts m slots :
  open_slots getMinutes setSeconds00 parsed now from to uiMap appts = Slots m slots →
  5 ≤ m ≤ 180 ∧ from < to ∧
  ∀ a b, (a, b) ∈ slots →
    b = a + m * 60 * 1000 ∧ now < b ∧
    ∀ appt st, appt ∈ appts →
      nullish_or (scheduledAt appt) (requestedStartAt appt) = Some st →
      ¬ (a < match nullish_or (scheduledEndAt appt) (requestedEndAt appt) with
             | Some en => en
             | None => st + m * 60 * 1000
             end ∧ st < b).
Proof.
  unfold open_slots. cbv zeta. destruct (to <=? from) eqn:Eft; [done|].
  apply Z.leb_gt in Eft. destruct uiMap as [[calendar weekly]|]; [|done].
  intros [= <- <-]. pose proof (slot_minutes_bounds parsed) as Hm.
  split_and!; [lia..|].
  intros a b Hin. apply list_elem_of_In, in_flat_map in Hin as (w & _ & Hin).
  apply list_elem_of_In, window_slots_are_free_grid_slots in Hin
    as (k & Hk & Ha & Hb & Hw & Hn & Hfree); [|lia].
  split_and!; [done..|].
  intros appt st Happt Hst. apply Hfree. by apply elem_of_bookings_of.
Qed.

End OpenSlotsProperties.

Lemma window_slots_are_free_grid_slots_witness :
  (0, 1200000) ∈ window_slots utc_minutes utc_setSeconds00 (-1) 20 [] (0, 3600000).
Proof.
  apply window_slots_are_free_grid_slots; [lia|].
  exists 0. split_and!; try done. by intros bs be ?%elem_of_nil.
Defined.

Lemma open_slots_sound_witness :
  2400000 = 1200000 + 20 * 60 * 1000 ∧ 0 < 2400000.
Proof.
  destruct (open_slots_sound utc_minutes utc_setSeconds00 None 0 0 7200000
              (Some ([(Some 0, Some 3600000)], []))
              [{| scheduledAt := Some 0; scheduledEndAt := None;
                  requestedStartAt := None; requestedEndAt := None |}]
              20 [(1200000, 2400000); (2400000, 3600000)])
    as (_ & _ & H); [by vm_compute|].
  destruct (H 1200000 2400000) as (? & ? & _); [by left | done].
Defined.

(** X22: the slots of a window come in chronological order and do not
    overlap one another: each ends no later than the next one starts. *)
Theorem window_slots_ordered getMinutes setSeconds00 now minutes bookings w :
  0 < minutes →
  StronglySorted (λ x y, x.2 ≤ y.1)
    (window_slots getMinutes setSeconds00 now minutes bookings w).
Proof. intros Hm. unfold window_slots. apply slot_loop_sorted. lia. Qed.

Lemma window_slots_ordered_witness :
  StronglySorted (λ x y : Z * Z, x.2 ≤ y.1)
    (window_slots utc_minutes utc_setSeconds00 0 20 [] (0, 3600000)).
Proof. apply window_slots_ordered. lia. Defined.

(** ** The grid in a zone at a fixed offset of whole minutes *)

Lemma zone_setSeconds00_spec offset t :
  zone_setSeconds00 offset t = 60000 * (t / 60000) ∧
  zone_setSeconds00 offset t ≤ t < zone_setSeconds00 offset t + 60000.
Proof.
  unfold zone_setSeconds00, local_time. cbv zeta.
  replace ((t + offset * 60000) mod 60000) with (t mod 60000)
    by (by rewrite Z.mod_add by lia).
  pose proof (Z.div_mod t 60000 ltac:(lia)).
  pose proof (Z.mod_pos_bound t 60000 ltac:(lia)). lia.
Qed.

Lemma zone_minutes_eq offset t : zone_minutes offset t = (t / 60000 + offset) mod 60.
Proof. unfold zone_minutes, local_time. by rewrite Z.div_add by lia. Qed.

Lemma zone_minutes_setSeconds00 offset t :
  zone_minutes offset (zone_setSeconds00 offset t) = zone_minutes offset t.
Proof.
  rewrite !zone_minutes_eq. destruct (zone_setSeconds00_spec offset t) as [-> _].
  by rewrite Z.mul_comm, Z.div_mul by lia.
Qed.

Lemma zone_minutes_add offset t k :
  zone_minutes offset (t + k * 60 * 1000) = (t / 60000 + offset + k) mod 60.
Proof.
  rewrite zone_minutes_eq. replace (t + k * 60 * 1000) with (t + k * 60000) by lia.
  rewrite Z.div_add by lia. f_equal. lia.
Qed.

Lemma zone_minutes_bounds offset t : 0 ≤ zone_minutes offset t < 60.
Proof. unfold zone_minutes. apply Z.mod_pos_bound. lia. Qed.

(** X23: the first cursor of a window, on a clock in a zone at any fixed
    offset of whole minutes from UTC. It falls on a full minute, less than a
    minute before the start of the window at the earliest and less than one
    slot length after it. It precedes the start of the window exactly when
    that start lies on a slot minute of local time but not on the full
    minute: the first slot then begins before the window does. *)
Theorem first_cursor_position offset minutes wStart :
  0 < minutes →
  first_cursor (zone_minutes offset) (zone_setSeconds00 offset) minutes wStart
    mod 60000 = 0 ∧
  wStart - 60000
    < first_cursor (zone_minutes offset) (zone_setSeconds00 offset) minutes wStart ∧
  first_cursor (zone_minutes offset) (zone_setSeconds00 offset) minutes wStart
    < wStart + minutes * 60 * 1000 ∧
  (first_cursor (zone_minutes offset) (zone_setSeconds00 offset) minutes wStart < wStart ↔
     Z.rem (zone_minutes offset wStart) minutes = 0 ∧ wStart mod 60000 ≠ 0).
Proof.
  intros Hm. unfold first_cursor. cbv zeta.
  pose proof (zone_minutes_bounds offset wStart) as Hb.
  assert (Hrem : 0 ≤ Z.rem (zone_minutes offset wStart) minutes < minutes).
  { apply Z.rem_bound_pos; lia. }
  assert (Hz : ∀ t, zone_setSeconds00 offset t mod 60000 = 0).
  { intros t. destruct (zone_setSeconds00_spec offset t) as [-> _].
    by rewrite Z.mul_comm, Z.mod_mul by lia. }
  destruct (Z.rem (zone_minutes offset wStart) minutes =? 0) eqn:E; simpl.
  - apply Z.eqb_eq in E. destruct (zone_setSeconds00_spec offset wStart) as [Hd Hr].
    split_and!; [apply Hz | lia | lia |].
    pose proof (Z.div_mod wStart 60000 ltac:(lia)).
    pose proof (Z.mod_pos_bound wStart 60000 ltac:(lia)). split.
    + intros ?. split; [done | lia].
    + intros [_ ?]. lia.
  - apply Z.eqb_neq in E.
    destruct (zone_setSeconds00_spec offset
                (wStart + (minutes - Z.rem (zone_minutes offset wStart) minutes) * 60 * 1000))
      as [_ Hr].
    split_and!; [apply Hz | lia | lia |].
    split; [lia | by intros [? _]].
Qed.

Lemma first_cursor_position_witness :
  first_cursor (zone_minutes 345) (zone_setSeconds00 345) 20 900500 < 900500.
Proof.
  destruct (first_cursor_position 345 20 900500) as (_ & _ & _ & H); [lia|].
  apply H. by vm_compute.
Defined.

(** X24: clean starts. When the slot length divides the hour, every slot
    of a window starts on a full minute whose minute of the hour, in local
    time, is a multiple of the slot length, wherever the window starts: on a
    clock in a zone at any fixed offset of whole minutes from UTC. *)
Theorem slots_start_on_slot_minutes offset now minutes bookings w a b :
  0 < minutes → (minutes | 60) →
  (a, b) ∈ window_slots (zone_minutes offset) (zone_setSeconds00 offset)
             now minutes bookings w →
  a mod 60000 = 0 ∧ zone_minutes offset a mod minutes = 0.
Proof.
  intros Hm Hdiv (k & Hk & -> & _)%window_slots_are_free_grid_slots; [|done].
  destruct (first_cursor_position offset minutes w.1 Hm) as (Hc & _).
  set (c := first_cursor (zone_minutes offset) (zone_setSeconds00 offset) minutes w.1) in *.
  split.
  - replace (k * (minutes * 60 * 1000)) with ((k * minutes) * 60000) by lia.
    by rewrite Z.mod_add by lia.
  - replace (k * (minutes * 60 * 1000)) with ((k * minutes) * 60 * 1000) by lia.
    rewrite zone_minutes_add, Z.mod_mod_divide by done.
    rewrite Z.mod_add by lia.
    assert (Hc0 : zone_minutes offset c mod minutes = 0); [|
      rewrite zone_minutes_eq in Hc0; by rewrite Z.mod_mod_divide in Hc0 by done].
    subst c. unfold first_cursor. cbv zeta.
    pose proof (zone_minutes_bounds offset w.1) as Hb.
    assert (Hrem : Z.rem (zone_minutes offset w.1) minutes
                   = zone_minutes offset w.1 mod minutes).
    { apply Z.rem_mod_nonneg; lia. }
    destruct (Z.rem (zone_minutes offset w.1) minutes =? 0) eqn:E; simpl.
    + apply Z.eqb_eq in E. rewrite zone_minutes_setSeconds00. by rewrite <- Hrem.
    + rewrite zone_minutes_setSeconds00, zone_minutes_add, Hrem.
      rewrite Z.mod_mod_divide by done.
      rewrite zone_minutes_eq, Z.mod_mod_divide by done.
      replace (w.1 / 60000 + offset + (minutes - (w.1 / 60000 + offset) mod minutes))
        with ((w.1 / 60000 + offset - (w.1 / 60000 + offset) mod minutes) + 1 * minutes)
        by lia.
      rewrite Z.mod_add by lia.
      rewrite Zminus_mod, Z.mod_mod, Z.sub_diag by lia. done.
Qed.

Lemma slots_start_on_slot_minutes_witness :
  2100000 mod 60000 = 0 ∧ zone_minutes 345 2100000 mod 20 = 0.
Proof.
  apply (slots_start_on_slot_minutes 345 (-1) 20 [] (900500, 4500000) 2100000 3300000).
  - lia.
  - by exists 3.
  - apply list_elem_of_In. vm_compute. tauto.
Defined.

(** X25: the calendar decides. As soon as the calendar slots of the
    provider leave one window in the requested range, the weekly schedule
    is not consulted; every slot offered then ends within the requested
    range. A range whose end is not after its start is refused with status
    400 before anything is read. *)
Theorem calendar_overrides_weekly getMinutes setSeconds00 parsed now from to
    calendar weekly appts :
  (calendar_windows from to calendar ≠ [] →
     open_slots getMinutes setSeconds00 parsed now from to (Some (calendar, weekly)) appts
       = open_slots getMinutes setSeconds00 parsed now from to (Some (calendar, [])) appts ∧
     ∀ m slots,
       open_slots getMinutes setSeconds00 parsed now from to
         (Some (calendar, weekly)) appts = Slots m slots →
       ∀ a b, (a, b) ∈ slots → b ≤ to) ∧
  (to ≤ from →
     ∀ uiMap, open_slots getMinutes setSeconds00 parsed now from to uiMap appts
              = BadRequest "`to` must be after `from`").
Proof.
  unfold open_slots. cbv zeta. split.
  - intros Hcal. rewrite !bool_decide_eq_false_2 by done. split; [done|].
    intros m slots. destruct (to <=? from); [done|]. intros [= <- <-] a b Hin.
    apply list_elem_of_In, in_flat_map in Hin as (w & Hw%list_elem_of_In & Hin).
    apply list_elem_of_In, window_slots_are_free_grid_slots in Hin
      as (k & _ & _ & _ & Hb & _); [|pose proof (slot_minutes_bounds parsed); lia].
    apply elem_of_calendar_windows in Hw. lia.
  - intros Hle uiMap. apply Z.leb_le in Hle. by rewrite Hle.
Qed.

Lemma calendar_overrides_weekly_witness :
  open_slots utc_minutes utc_setSeconds00 None 0 0 7200000
    (Some ([(Some 0, Some 3600000)], [(3600000, 7200000)])) []
  = open_slots utc_minutes utc_setSeconds00 None 0 0 7200000
      (Some ([(Some 0, Some 3600000)], [])) [].
Proof.
  destruct (calendar_overrides_weekly utc_minutes utc_setSeconds00 None 0 0 7200000
              [(Some 0, Some 3600000)] [(3600000, 7200000)] []) as [H _].
  by apply H.
Defined.

(** X27: the filter that reads the booked appointments does not name the
    provider. Its literal writes [$or] twice, once for the provider and once
    for the dates; the object keeps the second, so the filter is the same
    for every provider: it has the two properties [$or], on the dates, and
    [status]. *)
Theorem booked_filter_ignores_provider providerId from to :
  (∀ other, booked_filter providerId from to = booked_filter other from to) ∧
  booked_filter providerId from to !! "$or"
    = Some (CAny [ [("scheduledAt", CRange from to)];
                   [("requestedStartAt", CRange from to)] ]) ∧
  booked_filter providerId from to !! "status" = Some (CIn activeStatuses) ∧
  dom (booked_filter providerId from to) = ({[ "$or"; "status" ]} : gset string).
Proof.
  unfold booked_filter, object_literal. simpl. split_and!.
  - intros other. apply map_eq. intros k. rewrite !lookup_insert.
    by repeat case_decide.
  - apply lookup_insert_eq.
  - by rewrite lookup_insert_ne, lookup_insert_eq.
  - rewrite !dom_insert_L, dom_empty_L. set_solver.
Qed.

Lemma cache_touches_own_key_only_witness :
  cache_after (resolvePatientIdsCached (store [] no_faults)
     {| now_check := 1000; now_store := 1000; now_sweep := 1000 |}
     {[ "D7:C1" := {| ids := ["C1"]; timestamp := 0 |} ]}
     "U1" "U1" (with_role "patient")) !! "D7:C1"
    = Some {| ids := ["C1"]; timestamp := 0 |} ∧
  ({[ "D7:C1" := {| ids := ["C1"]; timestamp := 0 |} ]} : gmap string CacheEntry)
    !! "D7:C1" = Some {| ids := ["C1"]; timestamp := 0 |}.
Proof.
  assert (Hafter : cache_after (resolvePatientIdsCached (store [] no_faults)
     {| now_check := 1000; now_store := 1000; now_sweep := 1000 |}
     {[ "D7:C1" := {| ids := ["C1"]; timestamp := 0 |} ]}
     "U1" "U1" (with_role "patient")) !! "D7:C1"
    = Some {| ids := ["C1"]; timestamp := 0 |}).
  { rewrite cached_miss by (by vm_compute). simpl. by vm_compute. }
  split; [exact Hafter|].
  match type of Hafter with cache_after (resolvePatientIdsCached ?a ?c ?m ?r ?u ?p) !! _ = _ =>
    destruct (cache_touches_own_key_only a c m r u p) as [_ H] end.
  apply H; [by vm_compute | exact Hafter].
Defined.

Lemma requireCanRead_replies_witness :
  Guards.requireCanReadPatientResource "patientId"
    {| req_uid := Some "A1";
       req_profile := Some {| profile_of := {| role := Some (JS.VStr "admin");
                                               patientId := None; phone := None |};
                              isVerified := None; isActive := None |};
       req_params := {[ "patientId" := "" ]} |} = Status 400 "Missing patientId".
Proof.
  match goal with |- Guards.requireCanReadPatientResource ?n ?r = _ =>
    destruct (requireCanRead_replies n r) as [_ H] end.
  apply H. right. done.
Defined.
